(** * One-Year Vault: the vault lifecycle and its encryption state machine

    A shallow embedding of the vault hook ([useVault]), of the Web Crypto
    wrappers it calls ([client/src/lib/crypto.ts]) and of the record schemas
    ([shared/schema.ts]), followed by the properties of the vault lifecycle.
    The route helper ([shared/routes.ts]) and the submit handler of the
    unlock dialog ([client/src/pages/Home.tsx]) are embedded as well.

    The hook is present in two revisions: the one shipped next to
    [vite.config.ts], which evaluates the auto-lock date at start-up and
    unlocks with the preset password only, and an earlier one without the
    auto-lock.  Both are embedded: the current one as [UseVault], the
    earlier one as [UseVaultPrev]. *)

From Stdlib Require Import NArith ZArith Lia List Bool.
From Stdlib.Strings Require Import Byte Ascii String.
From Stdlib Require DecimalString.
From stdpp Require Import base option list gmap strings.
Import ListNotations.

Set Default Proof Using "Type".

(** ** Bytes and JavaScript strings *)

(** A [Uint8Array] (and the contents of an [ArrayBuffer]) is a list of
    bytes.  A JavaScript string is a sequence of 16-bit code units, kept
    here as natural numbers; [jsstring_ok] says every unit is in range. *)
Abbreviation bytes := (list Byte.byte).
Abbreviation jsstring := (list N).

Definition byte_of_N (n : N) : Byte.byte :=
  match Byte.of_N (n mod 256) with
  | Some b => b
  | None => Byte.x00
  end.

Definition jsstring_ok (s : jsstring) : bool :=
  forallb (fun u => (u <? 65536)%N) s.

(** A string literal of the source, all of whose characters are ASCII. *)
Fixpoint lit (s : string) : jsstring :=
  match s with
  | EmptyString => []
  | String a rest => N_of_ascii a :: lit rest
  end.

(** ** The Encoding Standard: [TextEncoder] and [TextDecoder] *)

Module Encoding.
Local Open Scope N_scope.

Definition is_lead_surrogate (u : N) : bool := (0xD800 <=? u) && (u <=? 0xDBFF).
Definition is_trail_surrogate (u : N) : bool := (0xDC00 <=? u) && (u <=? 0xDFFF).

(** Conversion of a string to a sequence of scalar values (USVString):
    a surrogate pair becomes its code point, an unpaired surrogate
    becomes U+FFFD. *)
Fixpoint to_scalars (s : jsstring) : list N :=
  match s with
  | [] => []
  | u :: rest =>
      if is_lead_surrogate u then
        match rest with
        | v :: rest' =>
            if is_trail_surrogate v
            then (0x10000 + (u - 0xD800) * 0x400 + (v - 0xDC00)) :: to_scalars rest'
            else 0xFFFD :: to_scalars rest
        | [] => [0xFFFD]
        end
      else if is_trail_surrogate u then 0xFFFD :: to_scalars rest
      else u :: to_scalars rest
  end.

(** The UTF-8 encoder, one scalar value at a time. *)
Definition utf8_encode_scalar (cp : N) : bytes :=
  if cp <? 0x80 then [byte_of_N cp]
  else if cp <? 0x800 then
    [byte_of_N (0xC0 + cp / 64); byte_of_N (0x80 + cp mod 64)]
  else if cp <? 0x10000 then
    [byte_of_N (0xE0 + cp / 4096); byte_of_N (0x80 + (cp / 64) mod 64);
     byte_of_N (0x80 + cp mod 64)]
  else
    [byte_of_N (0xF0 + cp / 262144); byte_of_N (0x80 + (cp / 4096) mod 64);
     byte_of_N (0x80 + (cp / 64) mod 64); byte_of_N (0x80 + cp mod 64)].

Definition utf8_encode (cps : list N) : bytes :=
  flat_map utf8_encode_scalar cps.

(** [new TextEncoder().encode(s)] *)
Definition TextEncoder_encode (s : jsstring) : bytes :=
  utf8_encode (to_scalars s).

(** The UTF-8 decoder's state: the code point being assembled, how many
    continuation bytes were seen and are needed, and the bounds the next
    continuation byte must respect. *)
Record Utf8Decoder := {
  code_point : N;
  bytes_seen : N;
  bytes_needed : N;
  lower_boundary : N;
  upper_boundary : N;
}.

Definition utf8_start : Utf8Decoder :=
  {| code_point := 0; bytes_seen := 0; bytes_needed := 0;
     lower_boundary := 0x80; upper_boundary := 0xBF |}.

(** The decoder's handler for a byte read when no sequence is open. *)
Definition utf8_lead (b : N) : list N * Utf8Decoder :=
  if b <=? 0x7F then ([b], utf8_start)
  else if (0xC2 <=? b) && (b <=? 0xDF) then
    ([], {| code_point := b mod 32; bytes_seen := 0; bytes_needed := 1;
            lower_boundary := 0x80; upper_boundary := 0xBF |})
  else if (0xE0 <=? b) && (b <=? 0xEF) then
    ([], {| code_point := b mod 16; bytes_seen := 0; bytes_needed := 2;
            lower_boundary := if b =? 0xE0 then 0xA0 else 0x80;
            upper_boundary := if b =? 0xED then 0x9F else 0xBF |})
  else if (0xF0 <=? b) && (b <=? 0xF4) then
    ([], {| code_point := b mod 8; bytes_seen := 0; bytes_needed := 3;
            lower_boundary := if b =? 0xF0 then 0x90 else 0x80;
            upper_boundary := if b =? 0xF4 then 0x8F else 0xBF |})
  else ([0xFFFD], utf8_start).

(** The handler for one byte.  A byte outside the bounds of an open
    sequence ends it with U+FFFD and is then read again as a lead. *)
Definition utf8_step (st : Utf8Decoder) (b : N) : list N * Utf8Decoder :=
  if bytes_needed st =? 0 then utf8_lead b
  else if negb ((lower_boundary st <=? b) && (b <=? upper_boundary st)) then
    let '(out, st') := utf8_lead b in (0xFFFD :: out, st')
  else
    let cp := code_point st * 64 + b mod 64 in
    if bytes_seen st + 1 =? bytes_needed st then ([cp], utf8_start)
    else ([], {| code_point := cp; bytes_seen := bytes_seen st + 1;
                 bytes_needed := bytes_needed st;
                 lower_boundary := 0x80; upper_boundary := 0xBF |}).

Fixpoint utf8_decode_from (st : Utf8Decoder) (bs : bytes) : list N :=
  match bs with
  | [] => if bytes_needed st =? 0 then [] else [0xFFFD]
  | b :: rest =>
      let '(out, st') := utf8_step st (Byte.to_N b) in
      out ++ utf8_decode_from st' rest
  end.

Definition utf8_decode (bs : bytes) : list N := utf8_decode_from utf8_start bs.

(** A decoder made with the default options ([ignoreBOM] false) drops a
    leading U+FEFF from its output. *)
Definition strip_bom (cps : list N) : list N :=
  match cps with
  | cp :: rest => if cp =? 0xFEFF then rest else cps
  | [] => []
  end.

(** A scalar value as UTF-16 code units. *)
Definition utf16_units (cp : N) : jsstring :=
  if cp <? 0x10000 then [cp]
  else [0xD800 + (cp - 0x10000) / 0x400; 0xDC00 + (cp - 0x10000) mod 0x400].

Definition from_scalars (cps : list N) : jsstring := flat_map utf16_units cps.

(** [new TextDecoder().decode(buffer)] *)
Definition TextDecoder_decode (bs : bytes) : jsstring :=
  from_scalars (strip_bom (utf8_decode bs)).

(** A string whose surrogates are all paired and whose units are all in
    range. *)
Fixpoint well_formed (s : jsstring) : bool :=
  match s with
  | [] => true
  | u :: rest =>
      if is_lead_surrogate u then
        match rest with
        | v :: rest' => is_trail_surrogate v && well_formed rest'
        | [] => false
        end
      else negb (is_trail_surrogate u) && (u <? 0x10000) && well_formed rest
  end.

Definition starts_with_bom (s : jsstring) : bool :=
  match s with
  | u :: _ => u =? 0xFEFF
  | [] => false
  end.

(** The strings that survive [decode (encode s)] unchanged. *)
Definition utf8_stable (s : jsstring) : bool :=
  well_formed s && negb (starts_with_bom s).
End Encoding.

(** ** Base64: [window.btoa] and [window.atob] *)

Module Base64.
Local Open Scope N_scope.

(** The base64 alphabet: the character of a six-bit value and back. *)
Definition b64_char (i : N) : N :=
  if i <? 26 then 65 + i
  else if i <? 52 then 97 + (i - 26)
  else if i <? 62 then 48 + (i - 52)
  else if i =? 62 then 43
  else 47.

Definition b64_index (c : N) : option N :=
  if (65 <=? c) && (c <=? 90) then Some (c - 65)
  else if (97 <=? c) && (c <=? 122) then Some (c - 71)
  else if (48 <=? c) && (c <=? 57) then Some (c + 4)
  else if c =? 43 then Some 62
  else if c =? 47 then Some 63
  else None.

(** The six-bit groups of a byte sequence, most significant first; a
    final group of one or two bytes is padded with zero bits. *)
Fixpoint sextets (bs : list N) : list N :=
  match bs with
  | a :: b :: c :: rest =>
      let n := a * 65536 + b * 256 + c in
      n / 262144 :: (n / 4096) mod 64 :: (n / 64) mod 64 :: n mod 64
        :: sextets rest
  | [a; b] =>
      let n := a * 65536 + b * 256 in
      [n / 262144; (n / 4096) mod 64; (n / 64) mod 64]
  | [a] =>
      let n := a * 65536 in [n / 262144; (n / 4096) mod 64]
  | [] => []
  end.

Definition padding (len : nat) : list N :=
  match (len mod 3)%nat with
  | 1%nat => [61; 61]
  | 2%nat => [61]
  | _ => []
  end.

(** [btoa(s)]: fails with InvalidCharacterError when a character of [s]
    is above U+00FF. *)
Definition btoa (s : jsstring) : option jsstring :=
  if forallb (fun u => u <=? 0xFF) s
  then Some (map b64_char (sextets s) ++ padding (length s))
  else None.

Definition is_ascii_whitespace (c : N) : bool :=
  (c =? 0x09) || (c =? 0x0A) || (c =? 0x0C) || (c =? 0x0D) || (c =? 0x20).

(** Removal of one or two trailing "=" signs. *)
Definition strip_padding (data : jsstring) : jsstring :=
  match rev data with
  | c1 :: r =>
      if c1 =? 61 then
        match r with
        | c2 :: r' => if c2 =? 61 then rev r' else rev r
        | [] => rev r
        end
      else data
  | [] => data
  end.

(** The bytes of a sequence of six-bit groups; the bits left over in a
    final group of two or three are dropped. *)
Fixpoint unsextets (cs : list N) : list N :=
  match cs with
  | s1 :: s2 :: s3 :: s4 :: rest =>
      let n := s1 * 262144 + s2 * 4096 + s3 * 64 + s4 in
      n / 65536 :: (n / 256) mod 256 :: n mod 256 :: unsextets rest
  | [s1; s2; s3] =>
      let n := (s1 * 4096 + s2 * 64 + s3) / 4 in [n / 256; n mod 256]
  | [s1; s2] => [(s1 * 64 + s2) / 16]
  | _ => []
  end.

Fixpoint indices (data : jsstring) : option (list N) :=
  match data with
  | [] => Some []
  | c :: rest =>
      match b64_index c, indices rest with
      | Some i, Some rest' => Some (i :: rest')
      | _, _ => None
      end
  end.

(** [atob(data)], the forgiving-base64 decode: fails with
    InvalidCharacterError on a length of 1 modulo 4 or a character
    outside the alphabet. *)
Definition atob (data : jsstring) : option jsstring :=
  let data := filter (fun c => is_ascii_whitespace c = false) data in
  let data :=
    if (length data mod 4 =? 0)%nat then strip_padding data else data in
  if (length data mod 4 =? 1)%nat then None
  else option_map unsextets (indices data).
End Base64.

(** ** The route helper ([shared/routes.ts]) *)

(** [buildUrl] fills the [:name] placeholders of a path from an object of
    parameters.  The object is kept as the list of its own properties in
    creation order, with distinct keys; [Object_entries] enumerates it as
    the language does.  A parameter is a string or a number.  The numbers
    covered are the safe integers ([Number.isSafeInteger]): each is a
    number of the language, and [String] prints it in plain decimal. *)
Module Routes.

Definition Number_isSafeInteger (z : Z) : bool :=
  (Z.abs z <=? 9007199254740991)%Z.

Record SafeInteger : Type := {
  integer : Z;
  integer_is_safe : Number_isSafeInteger integer = true
}.

Inductive Param : Type :=
| PString (s : jsstring)
| PNumber (n : SafeInteger).

Definition Params : Type := list (jsstring * Param).

Definition Number_toString (n : SafeInteger) : jsstring :=
  lit (DecimalString.NilZero.string_of_int (Z.to_int (integer n))).

Definition String_of (value : Param) : jsstring :=
  match value with
  | PString s => s
  | PNumber n => Number_toString n
  end.

(** *** Property enumeration order *)

Definition is_digit (u : N) : bool := ((48 <=? u) && (u <=? 57))%N.

Definition digits_value (s : jsstring) : N :=
  fold_left (fun acc u => (10 * acc + (u - 48))%N) s 0%N.

(** An array index is the canonical decimal form of an integer from 0 to
    2^32 - 2. *)
Definition array_index (key : jsstring) : option N :=
  match key with
  | [] => None
  | u :: rest =>
      if forallb is_digit key
         && ((negb (u =? 48)%N) || (length rest =? 0)%nat)
         && (length key <=? 10)%nat
         && (digits_value key <? 4294967295)%N
      then Some (digits_value key)
      else None
  end.

Fixpoint insert_by_index (e : N * (jsstring * Param))
    (l : list (N * (jsstring * Param))) : list (N * (jsstring * Param)) :=
  match l with
  | [] => [e]
  | e' :: l' =>
      if (fst e <=? fst e')%N then e :: l else e' :: insert_by_index e l'
  end.

Definition indexed (o : Params) : list (N * (jsstring * Param)) :=
  omap (fun e => match array_index (fst e) with
                 | Some i => Some (i, e)
                 | None => None
                 end) o.

Definition named (o : Params) : Params :=
  filter (fun e => array_index (fst e) = None) o.

(** [Object.entries]: the array-index keys in ascending order, then the
    other keys in creation order. *)
Definition Object_entries (o : Params) : Params :=
  map snd (fold_right insert_by_index [] (indexed o)) ++ named o.

(** *** [String.prototype.includes] and [String.prototype.replace] *)

Fixpoint starts_with (pat s : jsstring) : bool :=
  match pat, s with
  | [], _ => true
  | _ :: _, [] => false
  | p :: pat', u :: s' => (p =? u)%N && starts_with pat' s'
  end.

(** The least position at which [pat] occurs in [s]. *)
Fixpoint String_indexOf (s pat : jsstring) {struct s} : option nat :=
  if starts_with pat s then Some 0%nat
  else match s with
       | [] => None
       | _ :: s' => S <$> String_indexOf s' pat
       end.

Definition String_includes (s pat : jsstring) : bool :=
  match String_indexOf s pat with Some _ => true | None => false end.

(** [GetSubstitution] for a string pattern, which has no captures:
    [$$] is a dollar sign, [$&] the matched text, [$`] the text before
    the match and [$'] the text after it; a dollar sign before anything
    else stands for itself. *)
Fixpoint GetSubstitution (matched preceding following template : jsstring)
    : jsstring :=
  match template with
  | [] => []
  | u :: rest =>
      if (u =? 36)%N then
        match rest with
        | [] => [u]
        | v :: rest' =>
            if (v =? 36)%N then
              36%N :: GetSubstitution matched preceding following rest'
            else if (v =? 38)%N then
              matched ++ GetSubstitution matched preceding following rest'
            else if (v =? 96)%N then
              preceding ++ GetSubstitution matched preceding following rest'
            else if (v =? 39)%N then
              following ++ GetSubstitution matched preceding following rest'
            else u :: GetSubstitution matched preceding following rest
        end
      else u :: GetSubstitution matched preceding following rest
  end.

(** [s.replace(pat, template)] with a string pattern: the first
    occurrence only. *)
Definition String_replace (s pat template : jsstring) : jsstring :=
  match String_indexOf s pat with
  | None => s
  | Some position =>
      let preceding := take position s in
      let following := drop (position + length pat) s in
      preceding ++ GetSubstitution pat preceding following template
                ++ following
  end.

(** *** [buildUrl] *)

(** The template literal [`:${key}`]. *)
Definition placeholder (key : jsstring) : jsstring := 58%N :: key.

Definition fill (url : jsstring) (entry : jsstring * Param) : jsstring :=
  let '(key, value) := entry in
  if String_includes url (placeholder key)
  then String_replace url (placeholder key) (String_of value)
  else url.

Definition buildUrl (path : jsstring) (params : option Params) : jsstring :=
  match params with
  | None => path
  | Some o => fold_left fill (Object_entries o) path
  end.

End Routes.

(** Numbers to run [buildUrl] on. *)
Definition forty_two : Routes.SafeInteger :=
  {| Routes.integer := 42; Routes.integer_is_safe := eq_refl |}.
Definition seven : Routes.SafeInteger :=
  {| Routes.integer := 7; Routes.integer_is_safe := eq_refl |}.
Definition twelve : Routes.SafeInteger :=
  {| Routes.integer := 12; Routes.integer_is_safe := eq_refl |}.
(** ** Values kept in IndexedDB, and the record schemas *)

(** The values the hook stores and reads back.  Numbers are the
    millisecond timestamps of [Date.now()], kept as integers. *)
#[warnings="-register-all"]
Inductive JsValue :=
| JUndefined
| JNull
| JBool (b : bool)
| JNumber (n : Z)
| JString (s : jsstring)
| JObject (fields : list (string * JsValue)).

(** The truth value of [if (v)]. *)
Definition truthy (v : JsValue) : bool :=
  match v with
  | JUndefined | JNull => false
  | JBool b => b
  | JNumber n => negb (n =? 0)%Z
  | JString s => match s with [] => false | _ => true end
  | JObject _ => true
  end.

(** [obj[k]]: the property's value, [undefined] when there is none. *)
Fixpoint get_field (k : string) (fields : list (string * JsValue)) : JsValue :=
  match fields with
  | [] => JUndefined
  | (k', v) :: rest => if String.eqb k k' then v else get_field k rest
  end.

(** [shared/schema.ts] *)
Module Schema.
Record VaultContent := {
  content : jsstring;
  lastUpdated : Z;
}.

Record EncryptedVault := {
  ciphertext : jsstring;   (* Base64 *)
  iv : jsstring;           (* Base64 *)
  salt : jsstring;         (* Base64 *)
  lockedAt : Z;
}.

(** [z.string()] and [z.number()] *)
Definition z_string (v : JsValue) : option jsstring :=
  match v with JString s => Some s | _ => None end.

Definition z_number (v : JsValue) : option Z :=
  match v with JNumber n => Some n | _ => None end.

(** [z.string().default(d)]: an absent property takes the default. *)
Definition z_string_default (d : jsstring) (v : JsValue) : option jsstring :=
  match v with JUndefined => Some d | _ => z_string v end.

(** [vaultContentSchema.parse]; [None] stands for the thrown ZodError. *)
Definition vaultContentSchema (v : JsValue) : option VaultContent :=
  match v with
  | JObject fields =>
      match z_string_default [] (get_field "content" fields),
            z_number (get_field "lastUpdated" fields) with
      | Some c, Some t => Some {| content := c; lastUpdated := t |}
      | _, _ => None
      end
  | _ => None
  end.

(** [encryptedVaultSchema.parse] *)
Definition encryptedVaultSchema (v : JsValue) : option EncryptedVault :=
  match v with
  | JObject fields =>
      match z_string (get_field "ciphertext" fields),
            z_string (get_field "iv" fields),
            z_string (get_field "salt" fields),
            z_number (get_field "lockedAt" fields) with
      | Some c, Some i, Some s, Some t =>
          Some {| ciphertext := c; iv := i; salt := s; lockedAt := t |}
      | _, _, _, _ => None
      end
  | _ => None
  end.

(** The object literals the hook writes. *)
Definition VaultContent_value (d : VaultContent) : JsValue :=
  JObject [("content"%string, JString (content d));
           ("lastUpdated"%string, JNumber (lastUpdated d))].

Definition EncryptedVault_value (v : EncryptedVault) : JsValue :=
  JObject [("ciphertext"%string, JString (ciphertext v));
           ("iv"%string, JString (iv v));
           ("salt"%string, JString (salt v));
           ("lockedAt"%string, JNumber (lockedAt v))].
End Schema.

(** ** The platform, and the hook's state *)

(** [window.crypto.subtle], as far as [crypto.ts] uses it.  A key is the
    byte string it holds; [None] stands for a rejected promise. *)
Record SubtleCrypto := {
  (** [deriveKey({name: "PBKDF2", salt, iterations, hash}, keyMaterial,
      {name: "AES-GCM", length}, ...)] over the imported raw key material *)
  subtle_deriveKey :
    forall (salt : bytes) (iterations : N) (hash : string)
           (keyMaterial : bytes) (length : N), option bytes;
  (** [encrypt({name: "AES-GCM", iv}, key, data)] *)
  subtle_encrypt : forall (iv key data : bytes), option bytes;
  (** [decrypt({name: "AES-GCM", iv}, key, data)] *)
  subtle_decrypt : forall (iv key data : bytes), option bytes;
}.

(** What the browser answers.  Every call the hook makes to the platform
    is numbered in the order made, and the answer to call [n] is read at
    [n]: the clock's reading, the random bytes (or none, when the random
    source fails), whether an IndexedDB request succeeds. *)
Record Platform := {
  subtle : SubtleCrypto;
  clock : nat -> Z;
  timezoneOffset : Z;     (* minutes, as [getTimezoneOffset()] gives them *)
  entropy : nat -> option (nat -> Byte.byte);
  request_ok : nat -> bool;
}.

Inductive StoreName := STORE_DRAFT | STORE_LOCKED.

(** The database "vault-db": its two object stores. *)
Record IDB := {
  draft : gmap string JsValue;
  locked : gmap string JsValue;
}.

Definition object_store (s : StoreName) (d : IDB) : gmap string JsValue :=
  match s with STORE_DRAFT => draft d | STORE_LOCKED => locked d end.

Definition set_object_store (s : StoreName) (m : gmap string JsValue) (d : IDB) : IDB :=
  match s with
  | STORE_DRAFT => {| draft := m; locked := locked d |}
  | STORE_LOCKED => {| draft := draft d; locked := m |}
  end.

Inductive VaultState :=
| Loading
| Open (content : jsstring) (lastUpdated : Z)
| Locked (lockedAt : Z).

(** The calls made to the platform, as they are recorded.  [EvDownload]
    is the click on a link named [filename] to a Blob of type
    [application/json] that holds [text]. *)
Inductive Event :=
| EvOpenDB
| EvGet (store : StoreName) (key : string)
| EvPut (store : StoreName) (key : string) (value : JsValue)
| EvDelete (store : StoreName) (key : string)
| EvTransaction
| EvDone
| EvNow
| EvRandom (n : nat)
| EvDeriveKey (password salt : bytes)
| EvEncrypt (iv data : bytes)
| EvDecrypt (iv data : bytes)
| EvConsole (message : string)
| EvDownload (filename : jsstring) (text : jsstring).

(** The hook's world: the platform, the calls made so far (newest first),
    the database, the view of the transaction that is open (if one is),
    and the three React states [db], [state] and [error]. *)
Record World := {
  platform : Platform;
  trace : list Event;
  idb : IDB;
  pending : option IDB;
  db : bool;
  state : VaultState;
  error : option string;
}.

(** A thrown value: an [Error] or a [DOMException], by name and message. *)
Inductive Exn := Exception (name message : string).

Inductive Outcome (A : Type) :=
| Return (a : A)
| Throw (e : Exn).
Arguments Return {A} a.
Arguments Throw {A} e.

(** A computation of the hook: it runs in a world, and returns or throws. *)
Definition M (A : Type) : Type := World -> Outcome A * World.

Definition ret {A} (a : A) : M A := fun w => (Return a, w).

Definition bind {A B} (m : M A) (k : A -> M B) : M B :=
  fun w =>
    match m w with
    | (Return a, w') => k a w'
    | (Throw e, w') => (Throw e, w')
    end.

Definition throw {A} (e : Exn) : M A := fun w => (Throw e, w).

(** [try { m } catch (e) { handler e }] *)
Definition try_catch {A} (m : M A) (handler : Exn -> M A) : M A :=
  fun w =>
    match m w with
    | (Return a, w') => (Return a, w')
    | (Throw e, w') => handler e w'
    end.

Declare Scope vault_scope.
Delimit Scope vault_scope with vault.
Notation "x <- m ;; k" := (bind m (fun x => k))
  (at level 100, m at next level, right associativity,
   format "'[v' x  <-  m  ;; '/' k ']'") : vault_scope.
Notation "m ;; k" := (bind m (fun _ => k))
  (at level 100, right associativity) : vault_scope.
Local Open Scope vault_scope.

Definition Error (message : string) : Exn := Exception "Error" message.

Definition get_world : M World := fun w => (Return w, w).

(** Recording a call to the platform; the result is the call's number. *)
Definition call (e : Event) : M nat :=
  fun w =>
    (Return (length (trace w)),
     {| platform := platform w; trace := e :: trace w; idb := idb w;
        pending := pending w; db := db w; state := state w; error := error w |}).

Definition set_idb (d : IDB) : M unit :=
  fun w =>
    (Return tt,
     {| platform := platform w; trace := trace w; idb := d;
        pending := pending w; db := db w; state := state w; error := error w |}).

Definition set_pending (p : option IDB) : M unit :=
  fun w =>
    (Return tt,
     {| platform := platform w; trace := trace w; idb := idb w;
        pending := p; db := db w; state := state w; error := error w |}).

Definition setDb : M unit :=
  fun w =>
    (Return tt,
     {| platform := platform w; trace := trace w; idb := idb w;
        pending := pending w; db := true; state := state w; error := error w |}).

Definition setState (s : VaultState) : M unit :=
  fun w =>
    (Return tt,
     {| platform := platform w; trace := trace w; idb := idb w;
        pending := pending w; db := db w; state := s; error := error w |}).

Definition setError (message : string) : M unit :=
  fun w =>
    (Return tt,
     {| platform := platform w; trace := trace w; idb := idb w;
        pending := pending w; db := db w; state := state w;
        error := Some message |}).

Definition console (message : string) : M unit :=
  _ <- call (EvConsole message) ;; ret tt.

(** [Date.now()] and [new Date()]: a reading of the clock. *)
Definition Date_now : M Z :=
  n <- call EvNow ;;
  w <- get_world ;;
  ret (clock (platform w) n).

(** [new Date(2026, 0, 1)]: midnight of January 1, 2026, local time, in
    milliseconds since the epoch. *)
Definition Date_2026_0_1 : M Z :=
  w <- get_world ;;
  ret (1767225600000 + timezoneOffset (platform w) * 60000)%Z.

(** [window.crypto.getRandomValues(new Uint8Array(n))] *)
Definition getRandomValues (n : nat) : M bytes :=
  i <- call (EvRandom n) ;;
  w <- get_world ;;
  match entropy (platform w) i with
  | Some f => ret (map f (seq 0 n))
  | None => throw (Exception "QuotaExceededError" "getRandomValues")
  end.

(** The IndexedDB requests.  [db.get] and [db.put] run in a transaction
    of their own; [db.transaction] opens one whose writes are applied
    together when [tx.done] resolves, and dropped when a request of it or
    the commit fails. *)
Definition request (e : Event) : M unit :=
  i <- call e ;;
  w <- get_world ;;
  if request_ok (platform w) i then ret tt
  else throw (Exception "AbortError" "IndexedDB").

Definition db_get (store : StoreName) (key : string) : M JsValue :=
  request (EvGet store key) ;;
  w <- get_world ;;
  ret (default JUndefined (object_store store (idb w) !! key)).

Definition db_put (store : StoreName) (value : JsValue) (key : string) : M unit :=
  request (EvPut store key value) ;;
  w <- get_world ;;
  set_idb (set_object_store store (<[key := value]> (object_store store (idb w))) (idb w)).

Definition db_transaction : M unit :=
  request EvTransaction ;;
  w <- get_world ;;
  set_pending (Some (idb w)).

Definition tx_request (e : Event) (update : IDB -> IDB) : M unit :=
  w <- get_world ;;
  match pending w with
  | None => throw (Exception "TransactionInactiveError" "IndexedDB")
  | Some view =>
      try_catch
        (request e ;; set_pending (Some (update view)))
        (fun exn => set_pending None ;; throw exn)
  end.

Definition tx_put (store : StoreName) (value : JsValue) (key : string) : M unit :=
  tx_request (EvPut store key value)
    (fun view => set_object_store store (<[key := value]> (object_store store view)) view).

Definition tx_delete (store : StoreName) (key : string) : M unit :=
  tx_request (EvDelete store key)
    (fun view => set_object_store store (delete key (object_store store view)) view).

Definition tx_done : M unit :=
  w <- get_world ;;
  match pending w with
  | None => throw (Exception "AbortError" "IndexedDB")
  | Some view =>
      try_catch
        (request EvDone ;; set_idb view ;; set_pending None)
        (fun exn => set_pending None ;; throw exn)
  end.

(** An operation of the platform that returns or rejects. *)
Definition or_throw {A} (name : string) (o : option A) : M A :=
  match o with
  | Some a => ret a
  | None => throw (Exception name "")
  end.

(** ** [client/src/lib/crypto.ts] *)

Module Crypto.
(** Generate a random salt for PBKDF2 *)
Definition generateSalt : M bytes := getRandomValues 16.

(** Generate a random IV for AES-GCM *)
Definition generateIV : M bytes := getRandomValues 12.

(** Derive a key from a password and salt using PBKDF2 *)
Definition deriveKey (password : jsstring) (salt : bytes) : M bytes :=
  let keyMaterial := Encoding.TextEncoder_encode password in
  _ <- call (EvDeriveKey keyMaterial salt) ;;
  w <- get_world ;;
  or_throw "OperationError"
    (subtle_deriveKey (subtle (platform w)) salt 100000 "SHA-256" keyMaterial 256).

(** Encrypt text content *)
Definition encryptContent (content : jsstring) (key iv : bytes) : M bytes :=
  let data := Encoding.TextEncoder_encode content in
  _ <- call (EvEncrypt iv data) ;;
  w <- get_world ;;
  or_throw "OperationError" (subtle_encrypt (subtle (platform w)) iv key data).

(** Decrypt text content *)
Definition decryptContent (ciphertext key iv : bytes) : M jsstring :=
  _ <- call (EvDecrypt iv ciphertext) ;;
  w <- get_world ;;
  decrypted <- or_throw "OperationError"
                 (subtle_decrypt (subtle (platform w)) iv key ciphertext) ;;
  ret (Encoding.TextDecoder_decode decrypted).

(** The binary string the loop of [bufferToBase64] builds:
    [String.fromCharCode(bytes[i])] for each byte. *)
Definition binary_string (buffer : bytes) : jsstring := map Byte.to_N buffer.

Definition bufferToBase64 (buffer : bytes) : M jsstring :=
  or_throw "InvalidCharacterError" (Base64.btoa (binary_string buffer)).

(** [bytes[i] = binary_string.charCodeAt(i)], stored in a [Uint8Array]. *)
Definition base64ToBuffer (base64 : jsstring) : M bytes :=
  binary_string <- or_throw "InvalidCharacterError" (Base64.atob base64) ;;
  ret (map byte_of_N binary_string).
End Crypto.

(** ** [JSON.stringify(value, null, 2)] *)

Module JSON.
Local Open Scope Z_scope.

(** *** Numbers

    The numbers of [JsValue] are integers.  [Number_toString] prints
    the double nearest to the integer as [Number::toString] does: the
    shortest decimal that reads back as that double, in plain digits
    below 10^21 and with an exponent from there on. *)

(** The double nearest to a natural number, ties to the even mantissa;
    2^1024 stands for what lies beyond the largest double. *)
Definition to_double (x : Z) : Z :=
  if x <? 2 ^ 53 then x
  else
    let e := Z.log2 x - 52 in
    let q := x / 2 ^ e in
    let r := x mod 2 ^ e in
    let half := 2 ^ (e - 1) in
    let d := if r <? half then q * 2 ^ e
             else if half <? r then (q + 1) * 2 ^ e
             else (if Z.even q then q else q + 1) * 2 ^ e in
    Z.min d (2 ^ 1024).

Definition decimal (x : Z) : jsstring :=
  lit (DecimalString.NilZero.string_of_int (Z.to_int x)).

(** The shortest decimal that reads back as the double [x], which has
    [N] digits: for the first number of digits [k] that allows one, the
    multiple of 10^(N-k) nearest to [x] among those that do. *)
Fixpoint shortest (x : Z) (N k fuel : nat) : Z :=
  match fuel with
  | O => x
  | S fuel' =>
      let p := 10 ^ Z.of_nat (N - k) in
      let c1 := x / p * p in
      let c2 := c1 + p in
      let ok1 := to_double c1 =? x in
      let ok2 := to_double c2 =? x in
      if ok1 && ok2 then
        if x - c1 <? c2 - x then c1
        else if c2 - x <? x - c1 then c2
        else if Z.even (c1 / p) then c1 else c2
      else if ok1 then c1
      else if ok2 then c2
      else shortest x N (S k) fuel'
  end.

Fixpoint strip_zeros (reversed : jsstring) : jsstring :=
  match reversed with
  | 48%N :: rest => strip_zeros rest
  | _ => reversed
  end.

(** [d.ddde+x] for a number of 22 digits or more. *)
Definition exponential (digits : jsstring) : jsstring :=
  let significant := rev (strip_zeros (rev digits)) in
  let exponent := decimal (Z.of_nat (length digits) - 1) in
  match significant with
  | [] => digits
  | [d] => d :: lit "e+" ++ exponent
  | d :: more => d :: 46%N :: more ++ lit "e+" ++ exponent
  end.

(** [None] stands for [Infinity] and [-Infinity]. *)
Definition Number_toString (n : Z) : option jsstring :=
  let x := to_double (Z.abs n) in
  if 2 ^ 1024 <=? x then None
  else
    let N := length (decimal x) in
    let v := shortest x N 1 N in
    let digits := decimal v in
    let body := if v <? 10 ^ 21 then digits else exponential digits in
    Some ((if n <? 0 then [45%N] else []) ++ body).

(** *** Strings: [QuoteJSONString] *)

Definition hex_digit (d : N) : N :=
  (if d <? 10 then 48 + d else 87 + d)%N.

(** [\uXXXX], in lower case. *)
Definition unicode_escape (u : N) : jsstring :=
  [92; 117; hex_digit (u / 4096 mod 16); hex_digit (u / 256 mod 16);
   hex_digit (u / 16 mod 16); hex_digit (u mod 16)]%N.

Definition escape_unit (u : N) : jsstring :=
  (if u =? 8 then lit "\b"
   else if u =? 9 then lit "\t"
   else if u =? 10 then lit "\n"
   else if u =? 12 then lit "\f"
   else if u =? 13 then lit "\r"
   else if u =? 34 then [92; 34]
   else if u =? 92 then [92; 92]
   else if u <? 32 then unicode_escape u
   else [u])%N.

(** A surrogate pair is kept; a surrogate on its own is escaped. *)
Fixpoint escape (s : jsstring) : jsstring :=
  match s with
  | [] => []
  | u :: rest =>
      if Encoding.is_lead_surrogate u then
        match rest with
        | v :: rest' =>
            if Encoding.is_trail_surrogate v then u :: v :: escape rest'
            else unicode_escape u ++ escape rest
        | [] => unicode_escape u
        end
      else if Encoding.is_trail_surrogate u then unicode_escape u ++ escape rest
      else escape_unit u ++ escape rest
  end.

Definition QuoteJSONString (s : jsstring) : jsstring :=
  34%N :: escape s ++ [34%N].

(** *** Objects *)

(** The own property keys in the order of enumeration: array indices
    in ascending order, then the other keys in creation order. *)
Fixpoint insert_by_index {V} (e : N * V) (l : list (N * V)) : list (N * V) :=
  match l with
  | [] => [e]
  | e' :: l' =>
      if (fst e <=? fst e')%N then e :: l else e' :: insert_by_index e l'
  end.

Definition entries {V} (fields : list (string * V)) : list (string * V) :=
  map snd
    (fold_right insert_by_index []
       (omap (fun e => match Routes.array_index (lit (fst e)) with
                       | Some i => Some (i, e)
                       | None => None
                       end) fields))
  ++ filter (fun e => Routes.array_index (lit (fst e)) = None) fields.

Definition join (separator : jsstring) (parts : list jsstring) : jsstring :=
  match parts with
  | [] => []
  | first :: more => first ++ concat (map (fun part => separator ++ part) more)
  end.

(** [SerializeJSONProperty] with the gap of two spaces; [None] is the
    [undefined] that a property without a JSON form gives. *)
Fixpoint serialize (indent : jsstring) (v : JsValue) : option jsstring :=
  match v with
  | JUndefined => None
  | JNull => Some (lit "null")
  | JBool true => Some (lit "true")
  | JBool false => Some (lit "false")
  | JNumber n => Some (default (lit "null") (Number_toString n))
  | JString s => Some (QuoteJSONString s)
  | JObject fields =>
      let stepback := indent in
      let indent := indent ++ lit "  " in
      let members :=
        (fix members (fields : list (string * JsValue)) : list (string * option jsstring) :=
           match fields with
           | [] => []
           | (key, value) :: rest => (key, serialize indent value) :: members rest
           end) fields in
      let partial :=
        omap (fun e => match snd e with
                       | Some text => Some (QuoteJSONString (lit (fst e)) ++ lit ": " ++ text)
                       | None => None
                       end) (entries members) in
      match partial with
      | [] => Some (lit "{}")
      | _ => Some (lit "{" ++ [10%N] ++ indent
                   ++ join (lit "," ++ [10%N] ++ indent) partial
                   ++ [10%N] ++ stepback ++ lit "}")
      end
  end.

Definition stringify (v : JsValue) : option jsstring := serialize [] v.
End JSON.

(** ** [Date.prototype.toISOString] *)

(** The date part of [new Date(t).toISOString()], which is what
    [.split('T')[0]] keeps: the UTC day of the time value [t] as
    [YYYY-MM-DD], the year with a sign and six digits outside 0..9999.
    A time value beyond 8.64e15 milliseconds either side of the epoch is
    not a date, and [toISOString] throws a [RangeError] for it. *)
Module JsDate.
Local Open Scope Z_scope.

(** Year, month and day of the month of a day number (days since
    1970-01-01) in the proleptic Gregorian calendar. *)
Definition civil_from_days (days : Z) : Z * Z * Z :=
  let z := days + 719468 in
  let era := z / 146097 in
  let doe := z - era * 146097 in
  let yoe := (doe - doe / 1460 + doe / 36524 - doe / 146096) / 365 in
  let doy := doe - (365 * yoe + yoe / 4 - yoe / 100) in
  let mp := (5 * doy + 2) / 153 in
  let d := doy - (153 * mp + 2) / 5 + 1 in
  let m := if mp <? 10 then mp + 3 else mp - 9 in
  let y := yoe + era * 400 + (if m <=? 2 then 1 else 0) in
  (y, m, d).

(** The last [k] decimal digits of [n], zero-padded. *)
Fixpoint digits (k : nat) (n : Z) : jsstring :=
  match k with
  | O => []
  | S k' => digits k' (n / 10) ++ [Z.to_N (48 + n mod 10)]
  end.

Definition year_text (y : Z) : jsstring :=
  if (0 <=? y) && (y <=? 9999) then digits 4 y
  else (if y <? 0 then 45%N else 43%N) :: digits 6 (Z.abs y).

Definition is_valid (t : Z) : bool := Z.abs t <=? 8640000000000000.

Definition toISOString_date (t : Z) : option jsstring :=
  if is_valid t then
    let '(y, m, d) := civil_from_days (t / 86400000) in
    Some (year_text y ++ [45%N] ++ digits 2 m ++ [45%N] ++ digits 2 d)
  else None.
End JsDate.

(** ** The vault hook *)

Definition is_open (s : VaultState) : bool :=
  match s with Open _ _ => true | _ => false end.

Definition is_locked (s : VaultState) : bool :=
  match s with Locked _ => true | _ => false end.

(** The hook as shipped: the auto-lock date is evaluated when the vault's
    status is checked, and unlocking accepts the preset password only. *)
Module UseVault.
(** Initialize DB: the upgrade callback creates the two object stores
    when they are missing. *)
Definition initDB : M unit :=
  try_catch
    (request EvOpenDB ;; setDb)
    (fun e =>
       console "Failed to init DB:" ;;
       setError "Could not initialize storage.").

(** Save draft content *)
Definition saveDraft (content : jsstring) : M unit :=
  w <- get_world ;;
  if negb (db w) then ret tt
  else
    try_catch
      (lastUpdated <- Date_now ;;
       let data := {| Schema.content := content; Schema.lastUpdated := lastUpdated |} in
       db_put STORE_DRAFT (Schema.VaultContent_value data) "current" ;;
       prev <- get_world ;;
       setState (match state prev with
                 | Open _ _ => Open content (Schema.lastUpdated data)
                 | s => s
                 end))
      (fun e =>
         console "Failed to save draft:" ;;
         setError "Failed to save changes.").

(** The body both lock paths share between drawing the salt and the
    commit: encrypt [content] under [password] and replace the draft
    record by the encrypted one, in one transaction. *)
Definition encrypt_and_store (password content : jsstring) : M Z :=
  salt <- Crypto.generateSalt ;;
  iv <- Crypto.generateIV ;;
  key <- Crypto.deriveKey password salt ;;
  encryptedBuffer <- Crypto.encryptContent content key iv ;;
  ciphertext64 <- Crypto.bufferToBase64 encryptedBuffer ;;
  iv64 <- Crypto.bufferToBase64 iv ;;
  salt64 <- Crypto.bufferToBase64 salt ;;
  lockedAt <- Date_now ;;
  let vaultData :=
    {| Schema.ciphertext := ciphertext64; Schema.iv := iv64;
       Schema.salt := salt64; Schema.lockedAt := lockedAt |} in
  db_transaction ;;
  tx_put STORE_LOCKED (Schema.EncryptedVault_value vaultData) "vault_data" ;;
  tx_delete STORE_DRAFT "current" ;;
  tx_done ;;
  ret (Schema.lockedAt vaultData).

(** Lock the vault *)
Definition lockVault (password : jsstring) : M unit :=
  w <- get_world ;;
  match db w, state w with
  | true, Open content _ =>
      try_catch
        (lockedAt <- encrypt_and_store password content ;;
         setState (Locked lockedAt))
        (fun e =>
           console "Encryption failed:" ;;
           throw (Error "Failed to lock vault. Please try again."))
  | _, _ => ret tt
  end.

(** The steps of unlocking from the read of the record to the commit,
    with the key derived from [key_password]. *)
Definition decrypt_and_restore (key_password : jsstring) : M unit :=
  lockedData <- db_get STORE_LOCKED "vault_data" ;;
  (if truthy lockedData then ret tt
   else throw (Error "No locked vault found.")) ;;
  vault <- or_throw "ZodError" (Schema.encryptedVaultSchema lockedData) ;;
  salt <- Crypto.base64ToBuffer (Schema.salt vault) ;;
  iv <- Crypto.base64ToBuffer (Schema.iv vault) ;;
  ciphertext <- Crypto.base64ToBuffer (Schema.ciphertext vault) ;;
  key <- Crypto.deriveKey key_password salt ;;
  content <- Crypto.decryptContent ciphertext key iv ;;
  db_transaction ;;
  lastUpdated <- Date_now ;;
  tx_put STORE_DRAFT
    (Schema.VaultContent_value
       {| Schema.content := content; Schema.lastUpdated := lastUpdated |})
    "current" ;;
  tx_delete STORE_LOCKED "vault_data" ;;
  tx_done ;;
  now <- Date_now ;;
  setState (Open content now).

(** Download encrypted vault: the stored record is serialised into a
    Blob, and a link to it, named after the day the clock reads, is
    clicked. *)
Definition downloadVault : M unit :=
  w <- get_world ;;
  if negb (db w) then ret tt
  else
    lockedData <- db_get STORE_LOCKED "vault_data" ;;
    if negb (truthy lockedData) then ret tt
    else
      let text := default (lit "undefined") (JSON.stringify lockedData) in
      now <- Date_now ;;
      date <- or_throw "RangeError" (JsDate.toISOString_date now) ;;
      let filename := lit "vault-backup-" ++ date ++ lit ".json" in
      _ <- call (EvDownload filename text) ;; ret tt.

(** The part of [checkStatus] both revisions start with: check for a
    locked vault first.  The result says whether [checkStatus] returned. *)
Definition check_locked : M bool :=
  lockedData <- db_get STORE_LOCKED "vault_data" ;;
  if truthy lockedData then
    try_catch
      (parsed <- or_throw "ZodError" (Schema.encryptedVaultSchema lockedData) ;;
       setState (Locked (Schema.lockedAt parsed)) ;;
       ret true)
      (fun e => console "Invalid locked data structure" ;; ret false)
  else ret false.

Definition PRESET : jsstring := lit "DPBYDT".

Definition checkStatus : M unit :=
  try_catch
    (returned <- check_locked ;;
     if returned : bool then ret tt
     else
       (* Check for draft *)
       draftData <- db_get STORE_DRAFT "current" ;;
       now0 <- Date_now ;;
       draft <-
         (if truthy draftData then
            try_catch
              (parsed <- or_throw "ZodError" (Schema.vaultContentSchema draftData) ;;
               ret (Schema.content parsed, Schema.lastUpdated parsed))
              (fun e =>
                 console "Draft schema mismatch, resetting content" ;;
                 t <- Date_now ;;
                 ret ([], t))
          else ret ([], now0)) ;;
       let content := fst draft in
       let lastUpdated := snd draft in
       (* Check if auto-lock date has passed (Jan 1, 2026) *)
       lockDate <- Date_2026_0_1 ;;
       now <- Date_now ;;
       if (lockDate <=? now)%Z then
         (* Auto-lock the vault with preset password *)
         try_catch
           (lockedAt <- encrypt_and_store PRESET content ;;
            setState (Locked lockedAt))
           (fun e =>
              console "Auto-lock failed:" ;;
              setState (Open content lastUpdated))
       else
         (* Vault still open *)
         setState (Open content lastUpdated))
    (fun e =>
       console "Error checking vault status:" ;;
       setError "Failed to load vault status.").

(** Unlock the vault (Restore) - only accepts preset password "DPBYDT" *)
Definition unlockVault (password : jsstring) : M unit :=
  w <- get_world ;;
  match db w, state w with
  | true, Locked _ =>
      (* Validate against preset password *)
      if negb (bool_decide (password = PRESET)) then
        throw (Error "Incorrect password. Please try again.")
      else
        try_catch
          (decrypt_and_restore PRESET)
          (fun e =>
             console "Decryption failed:" ;;
             throw (Error "Incorrect password or corrupted data."))
  | _, _ => ret tt
  end.
End UseVault.

(** The earlier revision: no auto-lock, and the key is derived from the
    password supplied.  Its [initDB], [saveDraft], [lockVault] and
    [downloadVault] are word for word those of [UseVault]; what differs is
    embedded here. *)
Module UseVaultPrev.
Import UseVault.

Definition checkStatus : M unit :=
  try_catch
    (returned <- check_locked ;;
     if returned : bool then ret tt
     else
       (* Check for draft *)
       draftData <- db_get STORE_DRAFT "current" ;;
       if truthy draftData then
         try_catch
           (parsed <- or_throw "ZodError" (Schema.vaultContentSchema draftData) ;;
            setState (Open (Schema.content parsed) (Schema.lastUpdated parsed)))
           (fun e =>
              console "Draft schema mismatch, resetting content" ;;
              t <- Date_now ;;
              setState (Open [] t))
       else
         (* New vault *)
         t <- Date_now ;;
         setState (Open [] t))
    (fun e =>
       console "Error checking vault status:" ;;
       setError "Failed to load vault status.").

(** Unlock the vault (Restore) *)
Definition unlockVault (password : jsstring) : M unit :=
  w <- get_world ;;
  match db w, state w with
  | true, Locked _ =>
      try_catch
        (decrypt_and_restore password)
        (fun e =>
           console "Decryption failed:" ;;
           throw (Error "Incorrect password or corrupted data."))
  | _, _ => ret tt
  end.
End UseVaultPrev.

(** The effect that runs [checkStatus] once the database is ready. *)
Definition when_db_ready (checkStatus : M unit) : M unit :=
  w <- get_world ;;
  if negb (db w) then ret tt else checkStatus.

(** ** What the lifecycle properties are stated with *)

(** The world a computation leaves, and its outcome. *)
Definition after {A} (m : M A) (w : World) : World := snd (m w).
Definition outcome {A} (m : M A) (w : World) : Outcome A := fst (m w).

(** The two records of the vault. *)
Definition draft_record (w : World) : option JsValue :=
  draft (idb w) !! "current".

Definition locked_record (w : World) : option JsValue :=
  locked (idb w) !! "vault_data".

(** A platform whose storage and random source do not fail. *)
Record reliable (p : Platform) : Prop := {
  requests_succeed : forall n, request_ok p n = true;
  entropy_available : forall n, is_Some (entropy p n);
}.

(** [window.crypto.subtle] as its specification has it: PBKDF2 derives a
    key from any key material and salt, AES-GCM encrypts under a 96-bit
    iv, and decrypts what it encrypted under the same key and iv. *)
Record well_behaved (c : SubtleCrypto) : Prop := {
  deriveKey_succeeds :
    forall salt keyMaterial,
      is_Some (subtle_deriveKey c salt 100000 "SHA-256" keyMaterial 256);
  encrypt_succeeds :
    forall iv key data, length iv = 12%nat -> is_Some (subtle_encrypt c iv key data);
  decrypt_encrypt :
    forall iv key data ct,
      subtle_encrypt c iv key data = Some ct ->
      subtle_decrypt c iv key ct = Some data;
}.

(** ** A platform to run scenarios on *)

Module Sample.
Fixpoint strip_prefix (p l : bytes) : option bytes :=
  match p, l with
  | [], _ => Some l
  | a :: p', b :: l' => if Byte.eqb a b then strip_prefix p' l' else None
  | _ :: _, [] => None
  end.

(** A stand-in for PBKDF2 and AES-GCM that can be evaluated: the key is
    the key material followed by the salt, and a ciphertext carries key
    and iv in front of the data, which decryption checks. *)
Definition sample_subtle : SubtleCrypto := {|
  subtle_deriveKey := fun salt _ _ keyMaterial _ => Some (keyMaterial ++ salt);
  subtle_encrypt := fun iv key data => Some (key ++ iv ++ data);
  subtle_decrypt := fun iv key data => strip_prefix (key ++ iv) data;
|}.

(** Storage and random source never fail; the clock starts at [t0] and
    advances by a millisecond with every call. *)
Definition sample_platform (t0 : Z) : Platform := {|
  subtle := sample_subtle;
  clock := fun n => (t0 + Z.of_nat n)%Z;
  timezoneOffset := 0;
  entropy := fun n => Some (fun i => byte_of_N (N.of_nat (7 * n + i)));
  request_ok := fun _ => true;
|}.


(** Variations: the clock standing still at [t0], and the random source
    unavailable. *)
Definition frozen_platform (t0 : Z) : Platform := {|
  subtle := sample_subtle;
  clock := fun _ => t0;
  timezoneOffset := 0;
  entropy := fun n => Some (fun i => byte_of_N (N.of_nat (7 * n + i)));
  request_ok := fun _ => true;
|}.

Definition without_entropy (p : Platform) : Platform := {|
  subtle := subtle p;
  clock := clock p;
  timezoneOffset := timezoneOffset p;
  entropy := fun _ => None;
  request_ok := request_ok p;
|}.

Definition fresh (p : Platform) : World := {|
  platform := p; trace := [];
  idb := {| draft := ∅; locked := ∅ |};
  pending := None; db := false; state := Loading; error := None;
|}.

(** The world [w] continued on platform [p]. *)
Definition on (p : Platform) (w : World) : World :=
  {| platform := p; trace := trace w; idb := idb w; pending := pending w;
     db := db w; state := state w; error := error w |}.

(** 2025-06-01 and 2026-03-01, 00:00 UTC. *)
Definition in_2025 : Z := 1748736000000.
Definition in_2026 : Z := 1772323200000.

(** The page is opened on platform [p] over the database [d]: the
    world [initDB] leaves when the database opens. *)
Definition booted (p : Platform) (d : IDB) : World :=
  {| platform := p; trace := [EvOpenDB]; idb := d; pending := None;
     db := true; state := Loading; error := None |}.

(** ... and the vault's status checked. *)
Definition load (p : Platform) (d : IDB) : World :=
  after UseVault.checkStatus (booted p d).

Definition empty_idb : IDB := {| draft := ∅; locked := ∅ |}.

(** A first visit in 2025, and the text "diary entry" saved. *)
Definition writing : World :=
  after (UseVault.saveDraft (lit "diary entry"))
    (load (sample_platform in_2025) empty_idb).

(** The vault locked by hand with the passphrase "abc". *)
Definition locked_abc : World := after (UseVault.lockVault (lit "abc")) writing.

Definition locked_abc_record : JsValue :=
  Eval vm_compute in default JUndefined (locked_record locked_abc).

Definition locked_abc_vault : Schema.EncryptedVault :=
  Eval vm_compute in
    default {| Schema.ciphertext := []; Schema.iv := []; Schema.salt := [];
               Schema.lockedAt := 0 |}
      (Schema.encryptedVaultSchema locked_abc_record).


(** The page loaded again in 2026 over the draft left in 2025. *)
Definition auto_locked : World := load (sample_platform in_2026) (idb writing).

(** The same with a draft that starts with U+FEFF. *)
Definition bom_diary : jsstring := 0xFEFF%N :: lit "diary entry".

Definition writing_bom : World :=
  after (UseVault.saveDraft bom_diary) (load (sample_platform in_2025) empty_idb).

Definition auto_locked_bom : World :=
  load (sample_platform in_2026) (idb writing_bom).
End Sample.

(** ** Notions the statements below use *)

(** A Unicode scalar value: a code point that is not a surrogate. *)
Definition is_scalar (cp : N) : Prop :=
  (cp < 0x110000 /\ (cp < 0xD800 \/ 0xDFFF < cp))%N.

(** A string of octets: what [btoa] accepts. *)
Definition octets (bs : list N) : Prop := Forall (fun b => (b < 256)%N) bs.

(** The text [bufferToBase64] returns for a buffer. *)
Definition base64_text (buffer : bytes) : jsstring :=
  map Base64.b64_char (Base64.sextets (Crypto.binary_string buffer))
  ++ Base64.padding (length (Crypto.binary_string buffer)).

(** The record [encrypt_and_store] writes for a ciphertext, iv and salt. *)
Definition encrypted_record (ct iv salt : bytes) (lockedAt : Z) : JsValue :=
  Schema.EncryptedVault_value
    {| Schema.ciphertext := base64_text ct; Schema.iv := base64_text iv;
       Schema.salt := base64_text salt; Schema.lockedAt := lockedAt |}.

Definition draft_value (content : jsstring) (lastUpdated : Z) : JsValue :=
  Schema.VaultContent_value
    {| Schema.content := content; Schema.lastUpdated := lastUpdated |}.

(** The database after a lock committed, and after an unlock committed. *)
Definition idb_locked (d : IDB) (record : JsValue) : IDB :=
  {| draft := delete "current" (draft d);
     locked := <["vault_data" := record]> (locked d) |}.

Definition idb_unlocked (d : IDB) (record : JsValue) : IDB :=
  {| draft := <["current" := record]> (draft d);
     locked := delete "vault_data" (locked d) |}.

(** PBKDF2 as [deriveKey] calls it. *)
Definition pbkdf2 (c : SubtleCrypto) (password : jsstring) (salt : bytes) : option bytes :=
  subtle_deriveKey c salt 100000 "SHA-256" (Encoding.TextEncoder_encode password) 256.

(** A ciphertext made under the key of password [p] does not authenticate
    under the key of password [q], whatever the salt and iv. *)
Definition rejects (c : SubtleCrypto) (p q : jsstring) : Prop :=
  forall salt iv k1 k2 data ct,
    pbkdf2 c p salt = Some k1 ->
    pbkdf2 c q salt = Some k2 ->
    subtle_encrypt c iv k1 data = Some ct ->
    subtle_decrypt c iv k2 ct = None.

(** The clock never reads a time before January 1, 2026, local time. *)
Definition past_lock_date (p : Platform) : Prop :=
  forall n, (1767225600000 + timezoneOffset p * 60000 <= clock p n)%Z.

(** The expression of the round trip: derive a key, encrypt, decrypt. *)
Definition round_trip (s password : jsstring) (salt iv : bytes) : M jsstring :=
  key <- Crypto.deriveKey password salt ;;
  ciphertext <- Crypto.encryptContent s key iv ;;
  Crypto.decryptContent ciphertext key iv.

(** The buffer [base64ToBuffer] returns for a text, when [atob] accepts it. *)
Definition decoded (text : jsstring) : option bytes :=
  option_map (map byte_of_N) (Base64.atob text).

(** The handler of [unlockVault]'s [catch]: log, and throw the error the
    dialog shows. *)
Definition decryption_failed : M unit :=
  console "Decryption failed:" ;;
  throw (Error "Incorrect password or corrupted data.").

(** The clock never reaches January 1, 2026, local time. *)
Definition before_lock_date (p : Platform) : Prop :=
  forall n, (clock p n < 1767225600000 + timezoneOffset p * 60000)%Z.

(** The random source is not available. *)
Definition no_entropy (p : Platform) : Prop := forall n, entropy p n = None.

(** What [round_trip] makes of a string: its scalar values, unpaired
    surrogates replaced by U+FFFD, less a leading U+FEFF. *)
Definition read_back (s : jsstring) : jsstring :=
  Encoding.from_scalars (Encoding.strip_bom (Encoding.to_scalars s)).

(** ** The unlock dialog ([client/src/pages/Home.tsx]) *)

(** The state the dialog's submit handler works on: [Home]'s flag for the
    dialog and the dialog's own password, loading flag and error line. *)
Module Home.

Record Ui := {
  isUnlockModalOpen : bool;
  password : jsstring;
  loading : bool;
  error : string
}.

Definition setUnlockModalOpen (b : bool) (ui : Ui) : Ui :=
  {| isUnlockModalOpen := b; password := password ui;
     loading := loading ui; error := error ui |}.

Definition setPassword (s : jsstring) (ui : Ui) : Ui :=
  {| isUnlockModalOpen := isUnlockModalOpen ui; password := s;
     loading := loading ui; error := error ui |}.

Definition setLoading (b : bool) (ui : Ui) : Ui :=
  {| isUnlockModalOpen := isUnlockModalOpen ui; password := password ui;
     loading := b; error := error ui |}.

Definition setError (message : string) (ui : Ui) : Ui :=
  {| isUnlockModalOpen := isUnlockModalOpen ui; password := password ui;
     loading := loading ui; error := message |}.

(** [onClose={() => setUnlockModalOpen(false)}] *)
Definition onClose (ui : Ui) : Ui := setUnlockModalOpen false ui.

(** [UnlockDialog]'s [handleSubmit]; [Home] passes the hook's
    [unlockVault] for [onConfirm]. *)
Definition handleSubmit (onConfirm : jsstring -> M unit) (ui : Ui) : M Ui :=
  let ui0 := setLoading true (setError "" ui) in
  ui1 <- try_catch
           (onConfirm (password ui) ;;
            ret (setPassword [] (onClose ui0)))
           (fun err =>
              ret (setError "Incorrect password. Please try again." ui0)) ;;
  (* finally *)
  ret (setLoading false ui1).

End Home.

(** ** The transitions of the lifecycle *)

(** The two records as the hook reads them: stored, truthy and well
    formed. *)
Definition stored_draft (w : World) : option Schema.VaultContent :=
  match draft_record w with
  | Some r => if truthy r then Schema.vaultContentSchema r else None
  | None => None
  end.

Definition stored_vault (w : World) : option Schema.EncryptedVault :=
  match locked_record w with
  | Some r => if truthy r then Schema.encryptedVaultSchema r else None
  | None => None
  end.

(** The text [checkStatus] takes from the draft store: the draft's
    content, and the empty string when no well-formed draft is stored. *)
Definition draft_text (w : World) : jsstring :=
  match stored_draft w with
  | Some d => Schema.content d
  | None => []
  end.

(** What [getRandomValues] answers at call [n] when asked for [k] bytes. *)
Definition drawn (p : Platform) (n k : nat) : option bytes :=
  match entropy p n with
  | Some f => Some (map f (seq 0 k))
  | None => None
  end.

(** Call number [n] of a world (the trace is kept newest first). *)
Definition nth_call (w : World) (n : nat) : option Event :=
  nth_error (rev (trace w)) n.

(** The transitions between [Open] and [Locked], each a call of the hook:
    [lockVault], the auto-lock inside [checkStatus], and [unlockVault] in
    its two revisions. *)
Inductive Transition :=
| Lock (password : jsstring)
| AutoLock
| Unlock (password : jsstring)
| UnlockPrev (password : jsstring).

Definition run (tr : Transition) : M unit :=
  match tr with
  | Lock password => UseVault.lockVault password
  | AutoLock => UseVault.checkStatus
  | Unlock password => UseVault.unlockVault password
  | UnlockPrev password => UseVaultPrev.unlockVault password
  end.

Definition is_lock (tr : Transition) : bool :=
  match tr with
  | Lock _ | AutoLock => true
  | Unlock _ | UnlockPrev _ => false
  end.

(** The passphrase a lock encrypts under. *)
Definition passphrase (tr : Transition) : jsstring :=
  match tr with
  | Lock password | Unlock password | UnlockPrev password => password
  | AutoLock => UseVault.PRESET
  end.

(** The transition is what the call does in [w]: the database is open,
    the vault is open for [lockVault] and locked for [unlockVault], and
    [checkStatus] starts from [Loading] with no well-formed encrypted
    record to decide the state. *)
Definition applies (tr : Transition) (w : World) : Prop :=
  db w = true /\
  match tr with
  | Lock _ => is_open (state w) = true
  | AutoLock => state w = Loading /\ stored_vault w = None
  | Unlock _ | UnlockPrev _ => is_locked (state w) = true
  end.

(** The transition went through: the call returned and, for the
    auto-lock, [checkStatus] ended [Locked]. *)
Definition succeeded (tr : Transition) (w : World) : Prop :=
  outcome (run tr) w = Return tt /\
  match tr with
  | AutoLock => is_locked (state (after (run tr) w)) = true
  | _ => True
  end.

(** The lock stored what the random source answered to its two
    requests, calls [n] and [n + 1], both made during the transition. *)
Definition stores_drawn (tr : Transition) (w : World)
    (n : nat) (salt iv key : bytes) : Prop :=
  let w' := after (run tr) w in
  (length (trace w) <= n)%nat /\ (S n < length (trace w'))%nat /\
  nth_call w' n = Some (EvRandom 16) /\
  nth_call w' (S n) = Some (EvRandom 12) /\
  drawn (platform w) n 16 = Some salt /\
  drawn (platform w) (S n) 12 = Some iv /\
  pbkdf2 (subtle (platform w)) (passphrase tr) salt = Some key /\
  exists v,
    stored_vault w' = Some v /\
    decoded (Schema.salt v) = Some salt /\
    decoded (Schema.iv v) = Some iv.

(** The random source gave different answers to different requests
    among the first [calls] calls. *)
Definition never_repeats (p : Platform) (calls : nat) : Prop :=
  forall n m k a b,
    (n < m < calls)%nat -> (12 <= k)%nat ->
    drawn p n k = Some a -> drawn p m k = Some b -> a <> b.

(** PBKDF2 derives different keys from one password under different
    salts. *)
Definition salted (c : SubtleCrypto) : Prop :=
  forall password salt1 salt2 key1 key2,
    pbkdf2 c password salt1 = Some key1 ->
    pbkdf2 c password salt2 = Some key2 ->
    salt1 <> salt2 -> key1 <> key2.

(** * Properties *)

(** ** Text encoding: what [decode (encode s)] returns *)

Section Utf8.
Import Encoding.
Local Open Scope N_scope.

Lemma to_N_byte_of_N (n : N) : n < 256 -> Byte.to_N (byte_of_N n) = n.
Proof.
  intros Hn. unfold byte_of_N. rewrite N.mod_small by exact Hn.
  destruct (Byte.of_N n) eqn:E.
  - now apply Byte.to_of_N.
  - apply Byte.of_N_None_iff in E. lia.
Qed.

Lemma byte_of_N_to_N (b : Byte.byte) : byte_of_N (Byte.to_N b) = b.
Proof.
  unfold byte_of_N. pose proof (Byte.to_N_bounded b).
  rewrite N.mod_small by lia. now rewrite Byte.of_to_N.
Qed.

Local Ltac euclid := Z.to_euclidean_division_equations; lia.

Local Ltac decide_cmp :=
  repeat match goal with
  | |- context [?a =? ?b] =>
      first [ replace (a =? b) with true by (symmetry; apply N.eqb_eq; zify; euclid)
            | replace (a =? b) with false by (symmetry; apply N.eqb_neq; zify; euclid)
            | destruct (N.eqb_spec a b) ]
  end;
  repeat match goal with
  | |- context [?a <=? ?b] =>
      first [ replace (a <=? b) with true by (symmetry; apply N.leb_le; zify; euclid)
            | replace (a <=? b) with false by (symmetry; apply N.leb_gt; zify; euclid) ]
  end.

Local Ltac decoder_step :=
  unfold utf8_step, utf8_lead;
  cbn [bytes_needed bytes_seen lower_boundary upper_boundary code_point
       utf8_start];
  decide_cmp; cbn [andb negb]; cbv beta iota;
  cbn [bytes_needed bytes_seen lower_boundary upper_boundary code_point
       utf8_start app].

Lemma utf8_decode_scalar (cp : N) (rest : bytes) :
  is_scalar cp ->
  utf8_decode_from utf8_start (utf8_encode_scalar cp ++ rest)
  = cp :: utf8_decode_from utf8_start rest.
Proof.
  intros [Hmax Hsur]. unfold utf8_encode_scalar.
  destruct (N.ltb_spec cp 0x80) as [H1|H1];
    [|destruct (N.ltb_spec cp 0x800) as [H2|H2];
      [|destruct (N.ltb_spec cp 0x10000) as [H3|H3]]].
  - cbn [app utf8_decode_from]. rewrite to_N_byte_of_N by lia.
    decoder_step. reflexivity.
  - cbn [app utf8_decode_from].
    rewrite !to_N_byte_of_N by (zify; euclid).
    decoder_step. all: repeat (progress decoder_step); f_equal; zify; euclid.
  - cbn [app utf8_decode_from].
    rewrite !to_N_byte_of_N by (zify; euclid).
    decoder_step. all: repeat (progress decoder_step); f_equal; zify; euclid.
  - cbn [app utf8_decode_from].
    rewrite !to_N_byte_of_N by (zify; euclid).
    decoder_step. all: repeat (progress decoder_step); f_equal; zify; euclid.
Qed.

Lemma utf8_decode_encode (cps : list N) :
  Forall is_scalar cps -> utf8_decode (utf8_encode cps) = cps.
Proof.
  unfold utf8_decode, utf8_encode.
  induction 1 as [|cp cps Hcp _ IH]; [reflexivity|].
  cbn [flat_map]. rewrite utf8_decode_scalar by exact Hcp. now rewrite IH.
Qed.

Lemma list_pair_ind {A} (P : list A -> Prop) :
  P [] -> (forall x, P [x]) ->
  (forall x y l, P l -> P (y :: l) -> P (x :: y :: l)) ->
  forall l, P l.
Proof.
  intros H0 H1 H2 l.
  enough (P l /\ forall x, P (x :: l)) by tauto.
  induction l as [|y l [IHl IHyl]]; split; auto.
Qed.

Local Ltac surrogate_cases :=
  unfold is_lead_surrogate, is_trail_surrogate in *;
  repeat match goal with
  | |- context [?a <=? ?b] => destruct (N.leb_spec a b)
  | |- context [?a <? ?b] => destruct (N.ltb_spec a b)
  | H : context [?a <=? ?b] |- _ => destruct (N.leb_spec a b)
  | H : context [?a <? ?b] |- _ => destruct (N.ltb_spec a b)
  end; cbn [andb negb] in *.

Lemma to_scalars_scalar (s : jsstring) :
  jsstring_ok s = true -> Forall is_scalar (to_scalars s).
Proof.
  unfold jsstring_ok.
  induction s as [|u|u v l IHl IHvl] using list_pair_ind; intros Hok.
  - constructor.
  - cbn [forallb andb] in Hok. cbn [to_scalars]. unfold is_scalar.
    surrogate_cases; try discriminate;
      (constructor; [lia|constructor]).
  - cbn [forallb] in Hok.
    apply andb_prop in Hok as [Hu Hvl]. pose proof Hvl as Hvl'.
    cbn [forallb] in Hvl'. apply andb_prop in Hvl' as [Hv Hl].
    specialize (IHl Hl). specialize (IHvl Hvl).
    apply N.ltb_lt in Hu, Hv.
    change (to_scalars (u :: v :: l)) with
      (if is_lead_surrogate u then
         if is_trail_surrogate v
         then (0x10000 + (u - 0xD800) * 0x400 + (v - 0xDC00)) :: to_scalars l
         else 0xFFFD :: to_scalars (v :: l)
       else if is_trail_surrogate u then 0xFFFD :: to_scalars (v :: l)
       else u :: to_scalars (v :: l)).
    unfold is_scalar.
    surrogate_cases; constructor; first [lia|assumption].
Qed.

Lemma from_to_scalars (s : jsstring) :
  well_formed s = true -> from_scalars (to_scalars s) = s.
Proof.
  unfold from_scalars.
  induction s as [|u|u v l IHl IHvl] using list_pair_ind; intros Hwf.
  - reflexivity.
  - cbn [well_formed] in Hwf. cbn [to_scalars]. unfold utf16_units.
    surrogate_cases; try discriminate; cbn [flat_map app];
      surrogate_cases; (reflexivity || lia).
  - revert Hwf.
    change (well_formed (u :: v :: l)) with
      (if is_lead_surrogate u then is_trail_surrogate v && well_formed l
       else negb (is_trail_surrogate u) && (u <? 0x10000) && well_formed (v :: l)).
    change (to_scalars (u :: v :: l)) with
      (if is_lead_surrogate u then
         if is_trail_surrogate v
         then (0x10000 + (u - 0xD800) * 0x400 + (v - 0xDC00)) :: to_scalars l
         else 0xFFFD :: to_scalars (v :: l)
       else if is_trail_surrogate u then 0xFFFD :: to_scalars (v :: l)
       else u :: to_scalars (v :: l)).
    destruct (is_lead_surrogate u) eqn:Hlead.
    + destruct (is_trail_surrogate v) eqn:Htrail; [|discriminate].
      cbn [andb flat_map]. intros Hl. rewrite (IHl Hl).
      unfold utf16_units.
      replace (_ <? 0x10000) with false by (symmetry; apply N.ltb_ge; lia).
      cbn [app]. f_equal; [|f_equal].
      * surrogate_cases; try discriminate. zify; euclid.
      * surrogate_cases; try discriminate. zify; euclid.
    + destruct (is_trail_surrogate u) eqn:Htrail; [discriminate|].
      cbn [negb andb flat_map].
      intros Hwf. apply andb_prop in Hwf as [Hu Hvl].
      rewrite (IHvl Hvl). unfold utf16_units. now rewrite Hu.
Qed.

Lemma well_formed_ok (s : jsstring) : well_formed s = true -> jsstring_ok s = true.
Proof.
  unfold jsstring_ok.
  induction s as [|u|u v l IHl IHvl] using list_pair_ind; intros Hwf.
  - reflexivity.
  - cbn [well_formed] in Hwf. cbn [forallb].
    surrogate_cases; (reflexivity || discriminate || lia).
  - revert Hwf.
    change (well_formed (u :: v :: l)) with
      (if is_lead_surrogate u then is_trail_surrogate v && well_formed l
       else negb (is_trail_surrogate u) && (u <? 0x10000) && well_formed (v :: l)).
    destruct (is_lead_surrogate u) eqn:Hlead.
    + intros Hwf. apply andb_prop in Hwf as [Hv Hl].
      cbn [forallb]. rewrite (IHl Hl).
      surrogate_cases; try discriminate; try lia; reflexivity.
    + intros Hwf. apply andb_prop in Hwf as [Hu Hvl].
      apply andb_prop in Hu as [_ Hu].
      change (forallb ?f (u :: v :: l)) with (f u && forallb f (v :: l)).
      cbv beta. now rewrite Hu, (IHvl Hvl).
Qed.

Lemma strip_bom_to_scalars (s : jsstring) :
  starts_with_bom s = false -> strip_bom (to_scalars s) = to_scalars s.
Proof.
  destruct s as [|u rest]; [reflexivity|].
  cbn [starts_with_bom]. intros Hu. apply N.eqb_neq in Hu.
  cbn [to_scalars].
  destruct (is_lead_surrogate u) eqn:Hlead.
  - destruct rest as [|v rest']; [reflexivity|].
    destruct (is_trail_surrogate v) eqn:Htrail; [|reflexivity].
    unfold strip_bom.
    replace (_ =? 0xFEFF) with false; [reflexivity|].
    symmetry; apply N.eqb_neq. surrogate_cases; try discriminate. lia.
  - destruct (is_trail_surrogate u); [reflexivity|].
    unfold strip_bom. apply N.eqb_neq in Hu. now rewrite Hu.
Qed.

(** What a decoder returns for the bytes an encoder produced: the
    string's scalar values, less a leading U+FEFF. *)
Lemma decode_encode (s : jsstring) :
  jsstring_ok s = true ->
  TextDecoder_decode (TextEncoder_encode s)
  = from_scalars (strip_bom (to_scalars s)).
Proof.
  intros Hok. unfold TextDecoder_decode, TextEncoder_encode.
  now rewrite utf8_decode_encode by now apply to_scalars_scalar.
Qed.

Lemma decode_encode_stable (s : jsstring) :
  utf8_stable s = true -> TextDecoder_decode (TextEncoder_encode s) = s.
Proof.
  unfold utf8_stable. intros H. apply andb_prop in H as [Hwf Hbom].
  apply negb_true_iff in Hbom.
  rewrite decode_encode by now apply well_formed_ok.
  rewrite strip_bom_to_scalars by exact Hbom.
  now apply from_to_scalars.
Qed.
End Utf8.

Example encode_ascii :
  Encoding.TextEncoder_encode (lit "DPBYDT") = [x44; x50; x42; x59; x44; x54].
Proof. reflexivity. Qed.

Example encode_euro : Encoding.TextEncoder_encode [0x20AC%N] = [xe2; x82; xac].
Proof. reflexivity. Qed.

Example encode_emoji :
  Encoding.TextEncoder_encode [0xD83D; 0xDE00]%N = [xf0; x9f; x98; x80].
Proof. reflexivity. Qed.

Example decode_emoji :
  Encoding.TextDecoder_decode [xf0; x9f; x98; x80] = [0xD83D; 0xDE00]%N.
Proof. reflexivity. Qed.

Example decode_truncated :
  Encoding.TextDecoder_decode [xe2; x82; x41] = [0xFFFD; 0x41]%N.
Proof. reflexivity. Qed.

(** ** Base64: [atob] undoes [btoa] *)

Section Base64Facts.
Import Base64.
Local Open Scope N_scope.

Local Ltac euclid := zify; Z.to_euclidean_division_equations; lia.

Local Ltac split_cmp :=
  repeat match goal with
  | |- context [?a <=? ?b] => destruct (N.leb_spec a b)
  | |- context [?a <? ?b] => destruct (N.ltb_spec a b)
  | |- context [?a =? ?b] => destruct (N.eqb_spec a b)
  end; cbn [andb orb negb].

Lemma b64_index_char (i : N) : i < 64 -> b64_index (b64_char i) = Some i.
Proof.
  intros Hi. unfold b64_char. split_cmp; try (exfalso; lia);
    unfold b64_index; split_cmp; try (exfalso; lia); f_equal; lia.
Qed.

Lemma b64_char_plain (i : N) :
  i < 64 ->
  is_ascii_whitespace (b64_char i) = false /\ (b64_char i =? 61) = false.
Proof.
  intros Hi. unfold b64_char. split_cmp; try (exfalso; lia);
    unfold is_ascii_whitespace; split_cmp; try (exfalso; lia);
    split; reflexivity.
Qed.

Lemma list_triple_ind {A} (P : list A -> Prop) :
  P [] -> (forall a, P [a]) -> (forall a b, P [a; b]) ->
  (forall a b c l, P l -> P (a :: b :: c :: l)) ->
  forall l, P l.
Proof.
  intros H0 H1 H2 H3 l.
  enough (P l /\ (forall a, P (a :: l)) /\ (forall a b, P (a :: b :: l))) by tauto.
  induction l as [|x l (IH0 & IH1 & IH2)]; repeat split; auto.
Qed.

Lemma sextets_bound (bs : list N) :
  octets bs -> Forall (fun i => i < 64) (sextets bs).
Proof.
  unfold octets.
  induction bs as [|a|a b|a b c l IH] using list_triple_ind; intros Hbs.
  - constructor.
  - inversion_clear Hbs. cbn [sextets]. repeat (constructor; [euclid|]). constructor.
  - inversion_clear Hbs as [|? ? Ha Hb]. inversion_clear Hb.
    cbn [sextets]. repeat (constructor; [euclid|]). constructor.
  - inversion_clear Hbs as [|? ? Ha Hb]. inversion_clear Hb as [|? ? Hb' Hc].
    inversion_clear Hc as [|? ? Hc' Hl].
    cbn [sextets]. repeat (constructor; [euclid|]). auto.
Qed.

Lemma unsextets_sextets (bs : list N) : octets bs -> unsextets (sextets bs) = bs.
Proof.
  unfold octets.
  induction bs as [|a|a b|a b c l IH] using list_triple_ind; intros Hbs.
  - reflexivity.
  - inversion_clear Hbs. cbn [sextets unsextets]. f_equal. euclid.
  - inversion_clear Hbs as [|? ? Ha Hb]. inversion_clear Hb.
    cbn [sextets unsextets]. f_equal; [|f_equal]; euclid.
  - inversion_clear Hbs as [|? ? Ha Hb]. inversion_clear Hb as [|? ? Hb' Hc].
    inversion_clear Hc as [|? ? Hc' Hl].
    cbn [sextets unsextets]. rewrite (IH Hl).
    f_equal; [|f_equal; [|f_equal]]; euclid.
Qed.

Lemma padding_cases (n : nat) :
  padding n = [] \/ padding n = [61] \/ padding n = [61; 61].
Proof. unfold padding. destruct (n mod 3)%nat as [|[|[|?]]]; auto. Qed.

Lemma strip_padding_app (body pad : jsstring) :
  Forall (fun c => (c =? 61) = false) body ->
  pad = [] \/ pad = [61] \/ pad = [61; 61] ->
  strip_padding (body ++ pad) = body.
Proof.
  intros Hbody Hpad. unfold strip_padding. rewrite rev_app_distr.
  assert (Hrev : Forall (fun c => (c =? 61) = false) (rev body))
    by now apply List.Forall_rev.
  destruct Hpad as [-> | [-> | ->]]; cbn [rev app N.eqb Pos.eqb].
  - rewrite app_nil_r. destruct (rev body) as [|c1 r] eqn:E; [reflexivity|].
    inversion_clear Hrev as [|? ? Hc1 _]. now rewrite Hc1.
  - destruct (rev body) as [|c2 r'] eqn:E.
    + apply (f_equal (@rev N)) in E. rewrite rev_involutive in E. now subst.
    + inversion_clear Hrev as [|? ? Hc2 _]. rewrite Hc2.
      rewrite <- E. apply rev_involutive.
  - apply rev_involutive.
Qed.

Lemma sextets_length (bs : list N) :
  exists q r : nat,
    length (sextets bs) = (4 * q + r)%nat /\
    ((r = 0%nat /\ padding (length bs) = []) \/
     (r = 2%nat /\ padding (length bs) = [61; 61]) \/
     (r = 3%nat /\ padding (length bs) = [61])).
Proof.
  induction bs as [|a|a b|a b c l IH] using list_triple_ind.
  - exists 0%nat, 0%nat. auto.
  - exists 0%nat, 2%nat. auto.
  - exists 0%nat, 3%nat. auto 6.
  - destruct IH as (q & r & Hlen & Hr). exists (S q), r. split.
    + cbn [sextets length]. lia.
    + replace (padding (length (a :: b :: c :: l))) with (padding (length l)); [exact Hr|].
      unfold padding. cbn [length].
      replace (S (S (S (length l))) mod 3)%nat with (length l mod 3)%nat; [reflexivity|].
      change (S (S (S (length l)))) with (3 + length l)%nat.
      rewrite <- Nat.Div0.add_mod_idemp_l. reflexivity.
Qed.

Lemma indices_chars (l : list N) :
  Forall (fun i => i < 64) l -> indices (map b64_char l) = Some l.
Proof.
  induction 1 as [|i l Hi _ IH]; [reflexivity|].
  cbn [map indices]. now rewrite b64_index_char, IH.
Qed.

Lemma filter_all {A} (P : A -> Prop) `{!forall x, Decision (P x)} (l : list A) :
  Forall P l -> filter P l = l.
Proof.
  induction 1 as [|x l Hx _ IH]; [reflexivity|].
  rewrite filter_cons_True by exact Hx. now rewrite IH.
Qed.

(** What [btoa] returns for a string of octets, and that [atob] reads
    it back. *)
Lemma atob_btoa (s : jsstring) :
  octets s ->
  btoa s = Some (map b64_char (sextets s) ++ padding (length s)) /\
  atob (map b64_char (sextets s) ++ padding (length s)) = Some s.
Proof.
  intros Hs. split.
  - unfold btoa.
    replace (forallb _ s) with true; [reflexivity|].
    symmetry. apply forallb_forall. intros u Hu. apply N.leb_le.
    unfold octets in Hs. rewrite List.Forall_forall in Hs.
    specialize (Hs u). apply Hs in Hu. lia.
  - pose proof (sextets_bound s Hs) as Hsx.
    assert (Hplain : Forall (fun c => is_ascii_whitespace c = false /\ (c =? 61) = false)
                       (map b64_char (sextets s))).
    { apply List.Forall_forall. intros c Hc. apply List.in_map_iff in Hc as (i & <- & Hi).
      apply b64_char_plain. rewrite List.Forall_forall in Hsx. now apply Hsx. }
    destruct (sextets_length s) as (q & r & Hlen & Hr).
    unfold atob.
    rewrite filter_all.
    2:{ apply Forall_app. split.
        - eapply Forall_impl; [exact Hplain|]. now intros c [Hc _].
        - destruct (padding_cases (length s)) as [-> | [-> | ->]];
            repeat constructor. }
    assert (Hmod : (length (map b64_char (sextets s) ++ padding (length s)) mod 4 =? 0)%nat = true).
    { apply Nat.eqb_eq. rewrite length_app, length_map, Hlen.
      destruct Hr as [[-> ->] | [[-> ->] | [-> ->]]]; cbn [length].
      - replace (4 * q + 0 + 0)%nat with (0 + q * 4)%nat by lia.
        now rewrite Nat.Div0.mod_add.
      - replace (4 * q + 2 + 2)%nat with (0 + (q + 1) * 4)%nat by lia.
        now rewrite Nat.Div0.mod_add.
      - replace (4 * q + 3 + 1)%nat with (0 + (q + 1) * 4)%nat by lia.
        now rewrite Nat.Div0.mod_add. }
    rewrite Hmod.
    rewrite strip_padding_app.
    2:{ eapply Forall_impl; [exact Hplain|]. now intros c [_ Hc]. }
    2:{ apply padding_cases. }
    replace (length (map b64_char (sextets s)) mod 4 =? 1)%nat with false.
    2:{ symmetry. apply Nat.eqb_neq. rewrite length_map, Hlen.
        rewrite (Nat.add_comm (4 * q)), (Nat.mul_comm 4 q), Nat.Div0.mod_add.
        destruct Hr as [[-> _] | [[-> _] | [-> _]]]; discriminate. }
    rewrite indices_chars by exact Hsx. cbn [option_map].
    now rewrite unsextets_sextets.
Qed.

Lemma octets_binary_string (buffer : bytes) : octets (Crypto.binary_string buffer).
Proof.
  unfold octets, Crypto.binary_string. apply List.Forall_forall.
  intros u Hu. apply List.in_map_iff in Hu as (b & <- & _).
  pose proof (Byte.to_N_bounded b). lia.
Qed.

Lemma bytes_of_binary_string (buffer : bytes) :
  map byte_of_N (Crypto.binary_string buffer) = buffer.
Proof.
  unfold Crypto.binary_string. rewrite map_map.
  induction buffer as [|b l IH]; [reflexivity|].
  cbn [map]. now rewrite byte_of_N_to_N, IH.
Qed.
End Base64Facts.
(** ** Running the hook *)

Section Wrappers.
Import Base64 Crypto.

Lemma bufferToBase64_returns (buffer : bytes) (w : World) :
  bufferToBase64 buffer w = (Return (base64_text buffer), w).
Proof.
  unfold bufferToBase64.
  destruct (atob_btoa _ (octets_binary_string buffer)) as [-> _]. reflexivity.
Qed.

Lemma base64ToBuffer_base64_text (buffer : bytes) (w : World) :
  base64ToBuffer (base64_text buffer) w = (Return buffer, w).
Proof.
  unfold base64ToBuffer, base64_text.
  destruct (atob_btoa _ (octets_binary_string buffer)) as [_ ->].
  cbv [or_throw bind ret]. now rewrite bytes_of_binary_string.
Qed.

(** [base64ToBuffer] changes nothing in the world. *)
Lemma base64ToBuffer_pure (text : jsstring) (w : World) :
  snd (base64ToBuffer text w) = w.
Proof.
  unfold base64ToBuffer. destruct (atob text); reflexivity.
Qed.

Lemma encryptedVaultSchema_value (v : Schema.EncryptedVault) :
  Schema.encryptedVaultSchema (Schema.EncryptedVault_value v) = Some v.
Proof. now destruct v. Qed.

Lemma vaultContentSchema_value (d : Schema.VaultContent) :
  Schema.vaultContentSchema (Schema.VaultContent_value d) = Some d.
Proof. now destruct d. Qed.

Lemma encryptedVaultSchema_truthy (r : JsValue) (v : Schema.EncryptedVault) :
  Schema.encryptedVaultSchema r = Some v -> truthy r = true.
Proof. now destruct r. Qed.

Lemma vaultContentSchema_truthy (r : JsValue) (d : Schema.VaultContent) :
  Schema.vaultContentSchema r = Some d -> truthy r = true.
Proof. now destruct r. Qed.
End Wrappers.

(** Symbolic execution of a computation of the hook: unfold the monad and
    the calls to the platform, leaving the platform's answers. *)
Ltac run :=
  cbv beta iota zeta delta
    [bind ret throw try_catch get_world call request set_idb set_pending
     setDb setState setError console Date_now Date_2026_0_1 getRandomValues
     db_get db_put db_transaction tx_request tx_put tx_delete tx_done or_throw
     platform trace idb pending db state error
     Crypto.generateSalt Crypto.generateIV Crypto.deriveKey
     Crypto.encryptContent Crypto.decryptContent
     object_store set_object_store draft locked
     fst snd negb andb orb is_open is_locked Error default from_option id].

Ltac open_world w :=
  let pf := fresh "pf" in let tr := fresh "tr" in
  let dm := fresh "dm" in let lm := fresh "lm" in
  let pend := fresh "pend" in let dbh := fresh "dbh" in
  let st := fresh "st" in let err := fresh "err" in
  destruct w as [pf tr [dm lm] pend dbh st err];
  cbv [draft_record locked_record] in *;
  cbn [platform trace idb pending db state error draft locked] in *.

Section LockPaths.
Import UseVault.

(** The two ways [encrypt_and_store] ends: with an exception and
    nothing written, or with the record written and the draft deleted. *)
Lemma encrypt_and_store_cases (password content : jsstring) (w : World) r w' :
  encrypt_and_store password content w = (r, w') ->
  platform w' = platform w /\ db w' = db w /\ state w' = state w /\
  error w' = error w /\
  ((exists e, r = Throw e /\ idb w' = idb w) \/
   (exists salt iv key ct t,
      r = Return t /\ length salt = 16%nat /\ length iv = 12%nat /\
      pbkdf2 (subtle (platform w)) password salt = Some key /\
      subtle_encrypt (subtle (platform w)) iv key
        (Encoding.TextEncoder_encode content) = Some ct /\
      idb w' = idb_locked (idb w) (encrypted_record ct iv salt t))).
Proof.
  open_world w. unfold encrypt_and_store, pbkdf2. run.
  destruct (entropy pf (length tr)) as [f1|]; run;
    [|intros [= <- <-]; cbn; eauto 10].
  destruct (entropy pf _) as [f2|]; run;
    [|intros [= <- <-]; cbn; eauto 10].
  destruct (subtle_deriveKey _ _ _ _ _ _) as [key|] eqn:Hkey; run;
    [|intros [= <- <-]; cbn; eauto 10].
  destruct (subtle_encrypt _ _ _ _) as [ct|] eqn:Hct; run;
    [|intros [= <- <-]; cbn; eauto 10].
  rewrite !bufferToBase64_returns. run.
  do 4 (destruct (request_ok pf _); run;
        [|intros [= <- <-]; cbn; eauto 10]).
  intros [= <- <-]. cbn. repeat split. right.
  do 5 eexists.
  split; [reflexivity|]. split; [now rewrite length_map, length_seq|].
  split; [now rewrite length_map, length_seq|].
  split; [exact Hkey|]. split; [exact Hct|]. reflexivity.
Qed.

(** On a platform that does not fail, [encrypt_and_store] returns. *)
Lemma encrypt_and_store_returns (password content : jsstring) (w : World) :
  reliable (platform w) -> well_behaved (subtle (platform w)) ->
  exists t, fst (encrypt_and_store password content w) = Return t.
Proof.
  intros Hrel Hwb. open_world w. unfold encrypt_and_store. run.
  destruct (entropy_available _ Hrel (length tr)) as [f1 ->]. run.
  match goal with |- context [entropy pf ?n] =>
    destruct (entropy_available _ Hrel n) as [f2 ->] end. run.
  match goal with |- context [subtle_deriveKey _ ?s _ _ ?m _] =>
    destruct (deriveKey_succeeds _ Hwb s m) as [key ->] end. run.
  match goal with |- context [subtle_encrypt _ ?i ?k ?d] =>
    destruct (encrypt_succeeds _ Hwb i k d) as [ct ->];
      [now rewrite length_map, length_seq|] end. run.
  rewrite !bufferToBase64_returns. run.
  rewrite !(requests_succeed _ Hrel). run. eauto.
Qed.
End LockPaths.

Section UnlockPaths.
Import UseVault.

Lemma base64ToBuffer_decoded (text : jsstring) (w : World) :
  Crypto.base64ToBuffer text w
  = (match decoded text with
     | Some buffer => Return buffer
     | None => Throw (Exception "InvalidCharacterError" "")
     end, w).
Proof.
  unfold Crypto.base64ToBuffer, decoded. now destruct (Base64.atob text).
Qed.

Lemma decoded_base64_text (buffer : bytes) : decoded (base64_text buffer) = Some buffer.
Proof.
  unfold decoded, base64_text.
  destruct (atob_btoa _ (octets_binary_string buffer)) as [_ ->].
  cbn [option_map]. now rewrite bytes_of_binary_string.
Qed.

Local Ltac derive_events :=
  let p := fresh "p" in let s := fresh "s" in let Hin := fresh "Hin" in
  intros p s Hin; cbn [In] in Hin;
  repeat (destruct Hin as [Hin|Hin];
          [first [discriminate Hin | injection Hin as <- <-; auto]|]);
  auto.

Local Ltac thrown :=
  intros [= <- <-]; cbn [platform db error trace idb state];
  repeat split; [derive_events | left; eauto].

(** The two ways [decrypt_and_restore] ends: with an exception and
    nothing written, or with the decrypted text stored as the draft and
    the encrypted record deleted.  The only key it derives is the one of
    [key_password]. *)
Lemma decrypt_and_restore_cases (key_password : jsstring) (w : World) r w' :
  decrypt_and_restore key_password w = (r, w') ->
  platform w' = platform w /\ db w' = db w /\ error w' = error w /\
  (forall p s, In (EvDeriveKey p s) (trace w') ->
     In (EvDeriveKey p s) (trace w)
     \/ p = Encoding.TextEncoder_encode key_password) /\
  ((exists e, r = Throw e /\ idb w' = idb w /\ state w' = state w) \/
   (exists record v salt iv ct key data t1 t2,
      r = Return tt /\
      locked (idb w) !! "vault_data" = Some record /\
      Schema.encryptedVaultSchema record = Some v /\
      decoded (Schema.salt v) = Some salt /\
      decoded (Schema.iv v) = Some iv /\
      decoded (Schema.ciphertext v) = Some ct /\
      pbkdf2 (subtle (platform w)) key_password salt = Some key /\
      subtle_decrypt (subtle (platform w)) iv key ct = Some data /\
      idb w' = idb_unlocked (idb w)
                 (draft_value (Encoding.TextDecoder_decode data) t1) /\
      state w' = Open (Encoding.TextDecoder_decode data) t2)).
Proof.
  open_world w. unfold decrypt_and_restore, pbkdf2. run.
  destruct (request_ok pf _); run; [|thrown].
  destruct (lm !! "vault_data") as [record|] eqn:Hrecord; run; [|thrown].
  destruct (truthy record); run; [|thrown].
  destruct (Schema.encryptedVaultSchema record) as [v|] eqn:Hv; run; [|thrown].
  rewrite !base64ToBuffer_decoded.
  destruct (decoded (Schema.salt v)) as [salt|] eqn:Hsalt; run; [|thrown].
  destruct (decoded (Schema.iv v)) as [iv|] eqn:Hiv; run; [|thrown].
  destruct (decoded (Schema.ciphertext v)) as [ct|] eqn:Hct; run; [|thrown].
  destruct (subtle_deriveKey _ _ _ _ _ _) as [key|] eqn:Hkey; run; [|thrown].
  destruct (subtle_decrypt _ _ _ _) as [data|] eqn:Hdata; run; [|thrown].
  do 4 (destruct (request_ok pf _); run; [|thrown]).
  intros [= <- <-]. cbn [platform db error trace idb state].
  repeat split; [derive_events|]. right.
  exists record, v, salt, iv, ct, key, data. do 2 eexists.
  repeat (split; [first [reflexivity|eassumption]|]). reflexivity.
Qed.

(** On a platform whose storage does not fail, [decrypt_and_restore]
    returns the text that AES-GCM authenticates, and throws when the
    ciphertext does not authenticate. *)
Lemma decrypt_and_restore_reliable (key_password : jsstring) (w : World)
      (r : JsValue) (v : Schema.EncryptedVault) (salt iv ct key : bytes) :
  reliable (platform w) ->
  locked (idb w) !! "vault_data" = Some r ->
  Schema.encryptedVaultSchema r = Some v ->
  decoded (Schema.salt v) = Some salt ->
  decoded (Schema.iv v) = Some iv ->
  decoded (Schema.ciphertext v) = Some ct ->
  pbkdf2 (subtle (platform w)) key_password salt = Some key ->
  match subtle_decrypt (subtle (platform w)) iv key ct with
  | Some data =>
      exists t1 t2 tr',
        decrypt_and_restore key_password w
        = (Return tt,
           {| platform := platform w; trace := tr';
              idb := idb_unlocked (idb w)
                       (draft_value (Encoding.TextDecoder_decode data) t1);
              pending := None; db := db w;
              state := Open (Encoding.TextDecoder_decode data) t2;
              error := error w |})
        /\ In (EvDeriveKey (Encoding.TextEncoder_encode key_password) salt) tr'
  | None =>
      decrypt_and_restore key_password w
      = (Throw (Exception "OperationError" ""),
         {| platform := platform w;
            trace := EvDecrypt iv ct
                     :: EvDeriveKey (Encoding.TextEncoder_encode key_password) salt
                     :: EvGet STORE_LOCKED "vault_data" :: trace w;
            idb := idb w; pending := pending w; db := db w;
            state := state w; error := error w |})
  end.
Proof.
  intros Hrel Hrecord Hv Hsalt Hiv Hct Hkey.
  pose proof (encryptedVaultSchema_truthy _ _ Hv) as Htruthy.
  open_world w. unfold pbkdf2 in Hkey.
  destruct (subtle_decrypt (subtle pf) iv key ct) as [data|] eqn:Hdata.
  - unfold decrypt_and_restore. run.
    rewrite !(requests_succeed _ Hrel). run. rewrite Hrecord. run.
    rewrite Htruthy, Hv. run.
    rewrite !base64ToBuffer_decoded, Hsalt, Hiv, Hct. run.
    rewrite Hkey. run. rewrite Hdata. run.
    rewrite !(requests_succeed _ Hrel). run.
    do 3 eexists. split; [reflexivity|]. cbn [In]. auto 12.
  - unfold decrypt_and_restore. run.
    rewrite !(requests_succeed _ Hrel). run. rewrite Hrecord. run.
    rewrite Htruthy, Hv. run.
    rewrite !base64ToBuffer_decoded, Hsalt, Hiv, Hct. run.
    rewrite Hkey. run. rewrite Hdata. run. reflexivity.
Qed.

Lemma encrypted_record_parses (ct iv salt : bytes) (t : Z) :
  exists v,
    Schema.encryptedVaultSchema (encrypted_record ct iv salt t) = Some v /\
    Schema.lockedAt v = t /\
    decoded (Schema.salt v) = Some salt /\
    decoded (Schema.iv v) = Some iv /\
    decoded (Schema.ciphertext v) = Some ct.
Proof.
  unfold encrypted_record. eexists. rewrite encryptedVaultSchema_value.
  split; [reflexivity|]. cbn [Schema.lockedAt Schema.salt Schema.iv Schema.ciphertext].
  now rewrite !decoded_base64_text.
Qed.
End UnlockPaths.

(** ** The sample platform *)

Section SampleFacts.
Import Sample.

Lemma strip_prefix_app (p l : bytes) : strip_prefix p (p ++ l) = Some l.
Proof.
  induction p as [|a p IH]; [reflexivity|].
  cbn [app strip_prefix]. now rewrite (Byte.byte_dec_lb (eq_refl a)).
Qed.

Lemma sample_well_behaved : well_behaved sample_subtle.
Proof.
  split; cbn [sample_subtle subtle_deriveKey subtle_encrypt subtle_decrypt].
  - intros salt keyMaterial. eauto.
  - intros iv key data _. eauto.
  - intros iv key data ct [= <-]. rewrite app_assoc. apply strip_prefix_app.
Qed.

Lemma sample_reliable (t0 : Z) : reliable (sample_platform t0).
Proof. split; cbn [sample_platform request_ok entropy]; eauto. Qed.
End SampleFacts.

(** ** The guards of [lockVault] and [unlockVault] *)

Section Guards.
Import UseVault.

Lemma unlockVault_refuses (password : jsstring) (w : World) (t : Z) :
  db w = true -> state w = Locked t -> password <> PRESET ->
  unlockVault password w
  = (Throw (Error "Incorrect password. Please try again."), w).
Proof.
  intros Hdb Hst Hpw. unfold unlockVault. cbv [bind get_world].
  rewrite Hdb, Hst. now rewrite bool_decide_eq_false_2.
Qed.

Lemma unlockVault_preset (w : World) (t : Z) :
  db w = true -> state w = Locked t ->
  unlockVault PRESET w
  = try_catch (decrypt_and_restore PRESET) (fun _ => decryption_failed) w.
Proof.
  intros Hdb Hst. unfold unlockVault. cbv [bind get_world].
  rewrite Hdb, Hst. now rewrite bool_decide_eq_true_2.
Qed.

Lemma unlockVault_prev (password : jsstring) (w : World) (t : Z) :
  db w = true -> state w = Locked t ->
  UseVaultPrev.unlockVault password w
  = try_catch (decrypt_and_restore password) (fun _ => decryption_failed) w.
Proof.
  intros Hdb Hst. unfold UseVaultPrev.unlockVault. cbv [bind get_world].
  now rewrite Hdb, Hst.
Qed.

Lemma unlockVault_not_locked (password : jsstring) (w : World) :
  db w = false \/ is_locked (state w) = false ->
  unlockVault password w = (Return tt, w) /\
  UseVaultPrev.unlockVault password w = (Return tt, w).
Proof.
  unfold unlockVault, UseVaultPrev.unlockVault. cbv [bind get_world ret].
  intros [-> | H]; [easy|].
  destruct (db w); [|easy]. now destruct (state w).
Qed.

Lemma lockVault_open (password : jsstring) (w : World) (c : jsstring) (t : Z) :
  db w = true -> state w = Open c t ->
  lockVault password w
  = try_catch
      (lockedAt <- encrypt_and_store password c ;; setState (Locked lockedAt))
      (fun _ => console "Encryption failed:" ;;
                throw (Error "Failed to lock vault. Please try again.")) w.
Proof.
  intros Hdb Hst. unfold lockVault. cbv [bind get_world].
  now rewrite Hdb, Hst.
Qed.
End Guards.

(** ** The random bytes a lock stores *)

Section Draws.
Import UseVault.

Lemma nth_call_last (e : Event) (l : list Event) :
  nth_error (rev (e :: l)) (length l) = Some e.
Proof.
  cbn [rev]. rewrite nth_error_app2 by (rewrite length_rev; lia).
  rewrite length_rev, Nat.sub_diag. reflexivity.
Qed.

Lemma nth_call_cons (e e' : Event) (l : list Event) (n : nat) :
  nth_error (rev l) n = Some e -> nth_error (rev (e' :: l)) n = Some e.
Proof.
  intros H. cbn [rev]. rewrite nth_error_app1; [exact H|].
  apply nth_error_Some. congruence.
Qed.
End Draws.

Ltac find_call :=
  unfold nth_call; cbn [trace];
  repeat lazymatch goal with
    | |- nth_error (rev (?e :: ?l)) _ = Some _ =>
        first [exact (nth_call_last e l) | apply nth_call_cons]
    end.

Section LockDraws.
Import UseVault.

(** [encrypt_and_store] that returned: the salt and the iv it stored
    are the answers to its first two calls, and nothing else. *)
Lemma encrypt_and_store_drawn (password content : jsstring) (w : World) t w' :
  encrypt_and_store password content w = (Return t, w') ->
  let n := length (trace w) in
  exists salt iv key ct,
    (S n < length (trace w'))%nat /\
    nth_call w' n = Some (EvRandom 16) /\
    nth_call w' (S n) = Some (EvRandom 12) /\
    drawn (platform w) n 16 = Some salt /\
    drawn (platform w) (S n) 12 = Some iv /\
    pbkdf2 (subtle (platform w)) password salt = Some key /\
    subtle_encrypt (subtle (platform w)) iv key
      (Encoding.TextEncoder_encode content) = Some ct /\
    idb w' = idb_locked (idb w) (encrypted_record ct iv salt t).
Proof.
  open_world w. unfold encrypt_and_store, pbkdf2, drawn. run.
  destruct (entropy pf (length tr)) as [f1|]; run; [|discriminate].
  destruct (entropy pf _) as [f2|]; run; [|discriminate].
  destruct (subtle_deriveKey _ _ _ _ _ _) as [key|] eqn:Hkey; run;
    [|discriminate].
  destruct (subtle_encrypt _ _ _ _) as [ct|] eqn:Hct; run; [|discriminate].
  rewrite !bufferToBase64_returns. run.
  do 4 (destruct (request_ok pf _); run; [|discriminate]).
  intros [= <- <-]. cbn [platform trace idb].
  exists (map f1 (seq 0 16)), (map f2 (seq 0 12)), key, ct.
  split; [cbn [length]; lia|].
  split; [find_call|]. split; [find_call|].
  repeat (split; [first [reflexivity|eassumption]|]). reflexivity.
Qed.
End LockDraws.

(** ** How [lockVault] and [checkStatus] end *)

Section LockEnds.
Import UseVault.

(** A [lockVault] that returned on an open vault committed, and stored
    the answers to its two requests for random bytes. *)
Lemma lockVault_commits (password : jsstring) (w : World) (c : jsstring) (t : Z) :
  db w = true -> state w = Open c t ->
  outcome (lockVault password) w = Return tt ->
  let w' := after (lockVault password) w in
  let n := length (trace w) in
  exists salt iv key ct t1,
    (S n < length (trace w'))%nat /\
    nth_call w' n = Some (EvRandom 16) /\
    nth_call w' (S n) = Some (EvRandom 12) /\
    drawn (platform w) n 16 = Some salt /\
    drawn (platform w) (S n) 12 = Some iv /\
    pbkdf2 (subtle (platform w)) password salt = Some key /\
    subtle_encrypt (subtle (platform w)) iv key
      (Encoding.TextEncoder_encode c) = Some ct /\
    state w' = Locked t1 /\
    idb w' = idb_locked (idb w) (encrypted_record ct iv salt t1).
Proof.
  intros Hdb Hst. cbv zeta. unfold after, outcome.
  rewrite (lockVault_open _ _ _ _ Hdb Hst). cbv [try_catch bind].
  destruct (encrypt_and_store password c w) as [[t1|e] w1] eqn:E.
  - intros _. apply encrypt_and_store_drawn in E.
    destruct E as (salt & iv & key & ct & E). cbv zeta in E.
    exists salt, iv, key, ct, t1.
    destruct w1 as [pf1 tr1 i1 pd1 db1 st1 er1].
    cbv [setState]. unfold nth_call in *.
    cbn [fst snd idb state trace] in *. intuition.
  - cbv [console bind call ret throw]. discriminate.
Qed.

Local Ltac ended :=
  cbn [platform db idb state error trace]; cbv beta iota;
  (split; [reflexivity|split; [reflexivity|split; [reflexivity|]]]).

(** The ways [checkStatus] ends.  It never throws.  A failed read sets
    the error; a well-formed encrypted record decides [Locked]; else
    the vault opens with the text of the draft, before the lock date or
    after an auto-lock that failed and was logged; or the auto-lock
    committed, storing the answers to its two requests for random
    bytes. *)
Lemma checkStatus_ends (w : World) :
  let w' := after checkStatus w in
  outcome checkStatus w = Return tt /\
  platform w' = platform w /\ db w' = db w /\
  ((error w' = Some "Failed to load vault status."%string
    /\ state w' = state w /\ idb w' = idb w) \/
   (exists v,
      stored_vault w = Some v /\ state w' = Locked (Schema.lockedAt v)
      /\ idb w' = idb w /\ error w' = error w) \/
   (stored_vault w = None /\ error w' = error w /\
    exists t,
      state w' = Open (draft_text w) t /\ idb w' = idb w /\
      (forall d, stored_draft w = Some d -> t = Schema.lastUpdated d) /\
      ((exists n, (clock (platform w) n
                   < 1767225600000 + timezoneOffset (platform w) * 60000)%Z)
       \/ In (EvConsole "Auto-lock failed:") (trace w'))) \/
   (stored_vault w = None /\ error w' = error w /\
    exists n salt iv key ct t1,
      (length (trace w) <= n)%nat /\ (S n < length (trace w'))%nat /\
      nth_call w' n = Some (EvRandom 16) /\
      nth_call w' (S n) = Some (EvRandom 12) /\
      drawn (platform w) n 16 = Some salt /\
      drawn (platform w) (S n) 12 = Some iv /\
      pbkdf2 (subtle (platform w)) PRESET salt = Some key /\
      subtle_encrypt (subtle (platform w)) iv key
        (Encoding.TextEncoder_encode (draft_text w)) = Some ct /\
      state w' = Locked t1 /\
      idb w' = idb_locked (idb w) (encrypted_record ct iv salt t1))).
Proof.
  cbv zeta. unfold outcome, after.
  destruct (checkStatus w) as [r w'] eqn:E. cbn [fst snd]. revert E.
  unfold draft_text, stored_vault, stored_draft.
  open_world w. unfold checkStatus, check_locked. run.
  destruct (request_ok pf (length tr)); run;
    [|intros [= <- <-]; ended; auto 10].
  destruct (lm !! "vault_data") as [rec|] eqn:Hrec; run;
    [destruct (truthy rec); run;
     [destruct (Schema.encryptedVaultSchema rec) as [v|] eqn:Hv; run;
      [intros [= <- <-]; ended; right; left; exists v; auto|]|]|].
  all: cbn [truthy]; run.
  all: (destruct (request_ok pf _); run;
        [|intros [= <- <-]; ended; auto 10]).
  all: (destruct (dm !! "current") as [record|]; run;
        [destruct (truthy record); run;
         [destruct (Schema.vaultContentSchema record) as [d|]; run|]|]).
  all: cbn [truthy]; run.
  all: destruct (_ <=? _)%Z eqn:Hdate;
    [ match goal with
      | |- context [encrypt_and_store ?p ?c ?W] =>
          destruct (encrypt_and_store p c W) as [[t1|e] w1] eqn:E;
          [ pose proof (encrypt_and_store_drawn p c W t1 w1 E)
              as (salt & iv & key & ct & Hlen & Hn1 & Hn2 & Hs & Hi & Hk & Hc & Hidb1)
          | ];
          apply encrypt_and_store_cases in E as (Hpf1 & Hdb1 & _ & Herr1 & Hcases);
          destruct w1 as [pf1 tr1 i1 pd1 db1 st1 er1];
          unfold nth_call in *;
          cbn [platform db idb state error trace pending length] in *;
          [ | destruct Hcases as [(e' & _ & Hidb1) | (? & ? & ? & ? & ? & [=] & _)] ];
          run; intros [= <- <-]; subst; ended; right; right;
          [ right; split; [reflexivity|split; [reflexivity|]];
            eexists _, salt, iv, key, ct, t1;
            split; [|split; [exact Hlen|]];
            [cbn [length]; lia|];
            repeat (split; [eassumption|]); split; reflexivity
          | left; split; [reflexivity|split; [reflexivity|]];
            eexists; split; [reflexivity|split; [reflexivity|]];
            split; [intros ? [= <-]; reflexivity || discriminate|];
            right; cbn [In]; auto ]
      end
    | run; intros [= <- <-]; ended; right; right; left;
      split; [reflexivity|split; [reflexivity|]];
      eexists; split; [reflexivity|split; [reflexivity|]];
      split; [intros ? [= <-]; reflexivity || discriminate|];
      left; eexists; apply Z.leb_gt; exact Hdate ].
Qed.
End LockEnds.

(** ** Lock and unlock on a platform that does not fail *)

Section ReliableRuns.
Import UseVault.

Lemma decrypt_and_restore_timed (key_password : jsstring) (w : World)
      (r : JsValue) (v : Schema.EncryptedVault) (salt iv ct key data : bytes) :
  reliable (platform w) ->
  locked (idb w) !! "vault_data" = Some r ->
  Schema.encryptedVaultSchema r = Some v ->
  decoded (Schema.salt v) = Some salt ->
  decoded (Schema.iv v) = Some iv ->
  decoded (Schema.ciphertext v) = Some ct ->
  pbkdf2 (subtle (platform w)) key_password salt = Some key ->
  subtle_decrypt (subtle (platform w)) iv key ct = Some data ->
  let n := length (trace w) in
  let text := Encoding.TextDecoder_decode data in
  outcome (decrypt_and_restore key_password) w = Return tt /\
  state (after (decrypt_and_restore key_password) w)
  = Open text (clock (platform w) (n + 8)) /\
  idb (after (decrypt_and_restore key_password) w)
  = idb_unlocked (idb w) (draft_value text (clock (platform w) (n + 4))).
Proof.
  intros Hrel Hrecord Hv Hsalt Hiv Hct Hkey Hdata.
  pose proof (encryptedVaultSchema_truthy _ _ Hv) as Htruthy.
  cbv zeta. unfold outcome, after. open_world w. unfold pbkdf2 in Hkey.
  unfold decrypt_and_restore. run.
  rewrite !(requests_succeed _ Hrel). run. rewrite Hrecord. run.
  rewrite Htruthy, Hv. run.
  rewrite !base64ToBuffer_decoded, Hsalt, Hiv, Hct. run.
  rewrite Hkey. run. rewrite Hdata. run.
  rewrite !(requests_succeed _ Hrel). run.
  replace (length tr + 8)%nat with (S (S (S (S (S (S (S (S (length tr))))))))) by lia.
  replace (length tr + 4)%nat with (S (S (S (S (length tr))))) by lia.
  cbn [length]. auto.
Qed.

(** What a [lockVault] that cannot fail leaves. *)
Lemma lockVault_locks (password : jsstring) (w : World) (c : jsstring) (t : Z) :
  db w = true -> state w = Open c t ->
  reliable (platform w) -> well_behaved (subtle (platform w)) ->
  exists ct iv salt key t1 tr1 pd1,
    lockVault password w
    = (Return tt,
       {| platform := platform w; trace := tr1;
          idb := idb_locked (idb w) (encrypted_record ct iv salt t1);
          pending := pd1; db := true; state := Locked t1; error := error w |})
    /\ pbkdf2 (subtle (platform w)) password salt = Some key
    /\ subtle_encrypt (subtle (platform w)) iv key
         (Encoding.TextEncoder_encode c) = Some ct.
Proof.
  intros Hdb Hst Hrel Hwb.
  rewrite (lockVault_open _ _ _ _ Hdb Hst). cbv [try_catch bind].
  destruct (encrypt_and_store_returns password c w Hrel Hwb) as [t1 Ht1].
  destruct (encrypt_and_store password c w) as [r1 w1] eqn:E.
  cbn [fst] in Ht1. subst r1.
  apply encrypt_and_store_cases in E as (Hpf1 & Hdb1 & Hst1 & Herr1 & Hcases).
  destruct w1 as [pf1 tr1 i1 pd1 db1 st1 er1].
  cbn [platform db idb state error trace pending] in *.
  destruct Hcases as [(e & He & _) | (salt & iv & key & ct & t1' & [= <-] & _ & _ & Hkey & Hct & Hidb1)];
    [discriminate|].
  subst. cbv [setState]. cbn [platform db idb state error trace pending].
  rewrite Hdb. exists ct, iv, salt, key, t1, tr1, pd1. auto.
Qed.
End ReliableRuns.

(** ** What a committed lock leaves *)

Section CommittedLock.
Import UseVault.

Lemma idb_locked_records (d : IDB) (w' : World) (ct iv salt : bytes) (t : Z) :
  idb w' = idb_locked d (encrypted_record ct iv salt t) ->
  draft_record w' = None /\
  exists v,
    stored_vault w' = Some v /\ Schema.lockedAt v = t /\
    decoded (Schema.salt v) = Some salt /\
    decoded (Schema.iv v) = Some iv /\
    decoded (Schema.ciphertext v) = Some ct.
Proof.
  intros Hidb. unfold draft_record, stored_vault, locked_record. rewrite Hidb.
  cbn [idb_locked draft locked]. rewrite lookup_delete_eq, lookup_insert_eq.
  split; [reflexivity|].
  destruct (encrypted_record_parses ct iv salt t) as (v & Hv & Hrest).
  exists v. now rewrite (encryptedVaultSchema_truthy _ _ Hv), Hv.
Qed.

(** A lock that went through, by hand or at bootstrap: the state is
    [Locked], the database has the draft deleted and the encrypted
    record put, and salt and iv of the record are the answers to two
    requests for random bytes made during the transition. *)
Lemma lock_commits (tr : Transition) (w : World) :
  is_lock tr = true -> applies tr w -> succeeded tr w ->
  let w' := after (run tr) w in
  exists n salt iv key ct t1,
    (length (trace w) <= n)%nat /\ (S n < length (trace w'))%nat /\
    nth_call w' n = Some (EvRandom 16) /\
    nth_call w' (S n) = Some (EvRandom 12) /\
    drawn (platform w) n 16 = Some salt /\
    drawn (platform w) (S n) 12 = Some iv /\
    pbkdf2 (subtle (platform w)) (passphrase tr) salt = Some key /\
    state w' = Locked t1 /\
    idb w' = idb_locked (idb w) (encrypted_record ct iv salt t1).
Proof.
  intros Hlock [Hdb Happ] [Hret Hend]. cbv zeta.
  destruct tr as [password| | |]; try discriminate; cbn [run passphrase] in *.
  - destruct (state w) as [|c t|] eqn:Hst; try discriminate.
    destruct (lockVault_commits password w c t Hdb Hst Hret)
      as (salt & iv & key & ct & t1 & Hlen & Hn1 & Hn2 & Hs & Hi & Hk & _ & Hstate & Hidb).
    exists (length (trace w)), salt, iv, key, ct, t1. auto 12.
  - destruct Happ as [Hloading Hnone].
    destruct (checkStatus_ends w)
      as (_ & _ & _ & [(_ & Hst & _) | [(v & Hv & _) | [(_ & _ & t & Hst & _) | Hauto]]]).
    + rewrite Hst, Hloading in Hend. discriminate.
    + congruence.
    + rewrite Hst in Hend. discriminate.
    + destruct Hauto as (_ & _ & n & salt & iv & key & ct & t1 & Hge & Hlen & Hn1
                         & Hn2 & Hs & Hi & Hk & _ & Hstate & Hidb).
      exists n, salt, iv, key, ct, t1. auto 12.
Qed.

Lemma lock_stores_drawn (tr : Transition) (w : World) :
  is_lock tr = true -> applies tr w -> succeeded tr w ->
  exists n salt iv key, stores_drawn tr w n salt iv key.
Proof.
  intros Hlock Happ Hok.
  destruct (lock_commits tr w Hlock Happ Hok)
    as (n & salt & iv & key & ct & t1 & Hge & Hlen & Hn1 & Hn2 & Hs & Hi & Hk
        & _ & Hidb).
  destruct (idb_locked_records _ _ _ _ _ _ Hidb) as (_ & v & Hv & _ & Hsalt & Hiv & _).
  exists n, salt, iv, key. unfold stores_drawn. eauto 12.
Qed.
End CommittedLock.

(** ** The lifecycle: bootstrap *)

(** C7.  At bootstrap a well-formed encrypted record decides the state:
    [checkStatus] makes one call to the platform, the read of the
    encrypted record, and ends in [Locked] with the record's [lockedAt].
    The draft store is not read, whatever it holds, and neither the clock
    nor the random source is consulted, so no auto-lock is evaluated.
    This holds in both revisions of the hook. *)
Theorem checkStatus_locked_record_wins
    (w : World) (r : JsValue) (v : Schema.EncryptedVault) :
  request_ok (platform w) (length (trace w)) = true ->
  locked_record w = Some r ->
  Schema.encryptedVaultSchema r = Some v ->
  let w' := {| platform := platform w;
               trace := EvGet STORE_LOCKED "vault_data" :: trace w;
               idb := idb w; pending := pending w; db := db w;
               state := Locked (Schema.lockedAt v); error := error w |} in
  UseVault.checkStatus w = (Return tt, w') /\
  UseVaultPrev.checkStatus w = (Return tt, w').
Proof.
  intros Hok Hr Hv. pose proof (encryptedVaultSchema_truthy _ _ Hv) as Htruthy.
  open_world w.
  split; unfold UseVault.checkStatus, UseVaultPrev.checkStatus, UseVault.check_locked;
    run; rewrite Hok; run; rewrite Hr; run; rewrite Htruthy, Hv; reflexivity.
Qed.

Lemma checkStatus_locked_record_wins_witness :
  let w := Sample.locked_abc in
  let w' := {| platform := platform w;
               trace := EvGet STORE_LOCKED "vault_data" :: trace w;
               idb := idb w; pending := pending w; db := db w;
               state := Locked (Schema.lockedAt Sample.locked_abc_vault);
               error := error w |} in
  UseVault.checkStatus w = (Return tt, w') /\
  UseVaultPrev.checkStatus w = (Return tt, w').
Proof.
  apply (checkStatus_locked_record_wins
           Sample.locked_abc Sample.locked_abc_record Sample.locked_abc_vault);
    vm_compute; reflexivity.
Defined.

(** ** The lifecycle: save *)

(** C3.  [saveDraft] called while the vault is locked: the in-memory
    state stays [Locked], but the text is written to the draft store,
    next to the encrypted record. *)
Theorem saveDraft_while_locked_writes_draft :
  let w := Sample.auto_locked in
  let w' := after (UseVault.saveDraft (lit "x")) w in
  state w = Locked 1772323200009 /\ db w = true /\
  draft_record w = None /\
  outcome (UseVault.saveDraft (lit "x")) w = Return tt /\
  state w' = Locked 1772323200009 /\
  draft_record w' = Some (draft_value (lit "x") 1772323200014) /\
  locked_record w' = locked_record w /\
  is_Some (locked_record w').
Proof.
  cbv zeta. repeat (split; [vm_compute; reflexivity|]).
  vm_compute. eexists. reflexivity.
Qed.

(** ** The lifecycle: lock *)




(** ** The lifecycle: unlock *)

Section Unlock.
Import UseVault.

(** What [unlockVault]'s [try]/[catch] makes of the steps inside it. *)
Lemma unlock_caught (m : M unit) (w : World) :
  try_catch m (fun _ => decryption_failed) w
  = match m w with
    | (Return a, w1) => (Return a, w1)
    | (Throw _, w1) =>
        (Throw (Error "Incorrect password or corrupted data."),
         {| platform := platform w1;
            trace := EvConsole "Decryption failed:" :: trace w1;
            idb := idb w1; pending := pending w1; db := db w1;
            state := state w1; error := error w1 |})
    end.
Proof.
  unfold try_catch. destruct (m w) as [[a|e] w1]; reflexivity.
Qed.

(** A failed attempt with either revision's [try] block: the error the
    dialog shows, and state and database as before. *)
Lemma unlock_attempt_cases (key_password : jsstring) (w : World) :
  let r := outcome (try_catch (decrypt_and_restore key_password)
                      (fun _ => decryption_failed)) w in
  let w' := after (try_catch (decrypt_and_restore key_password)
                     (fun _ => decryption_failed)) w in
  platform w' = platform w /\ db w' = db w /\
  (forall p s, In (EvDeriveKey p s) (trace w') ->
     In (EvDeriveKey p s) (trace w)
     \/ p = Encoding.TextEncoder_encode key_password) /\
  ((r = Throw (Error "Incorrect password or corrupted data.")
    /\ idb w' = idb w /\ state w' = state w) \/
   (exists record v salt iv ct key data t1 t2,
      r = Return tt /\
      locked (idb w) !! "vault_data" = Some record /\
      Schema.encryptedVaultSchema record = Some v /\
      decoded (Schema.salt v) = Some salt /\
      decoded (Schema.iv v) = Some iv /\
      decoded (Schema.ciphertext v) = Some ct /\
      pbkdf2 (subtle (platform w)) key_password salt = Some key /\
      subtle_decrypt (subtle (platform w)) iv key ct = Some data /\
      idb w' = idb_unlocked (idb w)
                 (draft_value (Encoding.TextDecoder_decode data) t1) /\
      state w' = Open (Encoding.TextDecoder_decode data) t2)).
Proof.
  unfold outcome, after. rewrite unlock_caught.
  destruct (decrypt_and_restore key_password w) as [r w1] eqn:E.
  apply decrypt_and_restore_cases in E
    as (Hpf & Hdb & _ & Hev & [(e & -> & Hidb & Hst) | Hret]).
  - cbn [fst snd platform db trace idb state]. repeat split; auto.
    intros p s [Hin|Hin]; [discriminate|auto].
  - destruct Hret as (record & v & salt & iv & ct & key & data & t1 & t2 & -> & Hret).
    cbn [fst snd]. repeat split; auto.
    right. exists record, v, salt, iv, ct, key, data, t1, t2. auto.
Qed.
End Unlock.

(** C10.  In the shipped revision, a locked vault and a password other
    than "DPBYDT": [unlockVault] throws "Incorrect password. Please try
    again." and the world is as it was, so the store was neither read nor
    written.  Whatever the password, every key [unlockVault] derives is
    derived from the constant "DPBYDT".  Hence a record that [lockVault]
    made with another passphrase, whose ciphertext does not authenticate
    under the key of "DPBYDT", is not unlocked by any password: the
    attempt throws, and record and state stay. *)
Theorem unlockVault_accepts_preset_only
    (password : jsstring) (w : World) (t : Z) :
  db w = true -> state w = Locked t ->
  (password <> UseVault.PRESET ->
   UseVault.unlockVault password w
   = (Throw (Error "Incorrect password. Please try again."), w))
  /\
  (forall p s,
     In (EvDeriveKey p s) (trace (after (UseVault.unlockVault password) w)) ->
     In (EvDeriveKey p s) (trace w)
     \/ p = Encoding.TextEncoder_encode UseVault.PRESET)
  /\
  (forall (w0 : World) (p c : jsstring) (t0 : Z),
     db w0 = true -> state w0 = Open c t0 ->
     p <> UseVault.PRESET ->
     rejects (subtle (platform w0)) p UseVault.PRESET ->
     UseVault.lockVault p w0 = (Return tt, w) ->
     exists e,
       outcome (UseVault.unlockVault password) w = Throw e /\
       locked_record (after (UseVault.unlockVault password) w) = locked_record w /\
       state (after (UseVault.unlockVault password) w) = Locked t).
Proof.
  intros Hdb Hst. split; [|split].
  - now apply unlockVault_refuses with t.
  - intros p s. destruct (decide (password = UseVault.PRESET)) as [-> | Hne].
    + unfold after. rewrite (unlockVault_preset _ _ Hdb Hst).
      apply (unlock_attempt_cases UseVault.PRESET w).
    + unfold after. rewrite (unlockVault_refuses _ _ _ Hdb Hst Hne). auto.
  - intros w0 p c t0 Hdb0 Hst0 _ Hrej Hlock.
    destruct (decide (password = UseVault.PRESET)) as [-> | Hne].
    2:{ unfold outcome, after. rewrite (unlockVault_refuses _ _ _ Hdb Hst Hne).
        eauto. }
    rewrite (lockVault_open _ _ _ _ Hdb0 Hst0) in Hlock.
    cbv [try_catch bind] in Hlock.
    destruct (UseVault.encrypt_and_store p c w0) as [r0 w1] eqn:E.
    apply encrypt_and_store_cases in E
      as (Hpf & _ & _ & _ & [(e & -> & _) | (salt & iv & key & ct & t1 & -> & _ & _ & Hkey & Hct & Hidb)]).
    { revert Hlock. cbv [console bind call ret throw]. discriminate. }
    cbv [setState] in Hlock. injection Hlock as <-.
    cbn [db state idb platform] in *. injection Hst as ->.
    set (W := {| platform := platform w1; trace := trace w1; idb := idb w1;
                 pending := pending w1; db := db w1; state := Locked t;
                 error := error w1 |}).
    unfold outcome, after. rewrite (unlockVault_preset W t Hdb eq_refl).
    pose proof (unlock_attempt_cases UseVault.PRESET W) as Hcases.
    cbv zeta in Hcases. unfold outcome, after in Hcases.
    destruct Hcases as (_ & _ & _ & [(-> & Hidb' & Hst') | Hret]).
    + eexists. split; [reflexivity|]. unfold locked_record.
      rewrite Hidb', Hst'. split; reflexivity.
    + exfalso.
      destruct Hret as (record & v & salt' & iv' & ct' & key' & data & _ & _ & _
                        & Hrec & Hv & Hsalt & Hiv & Hct' & Hkey' & Hdata & _).
      subst W. cbn [idb platform] in *. rewrite Hidb in Hrec.
      unfold idb_locked in Hrec. cbn [locked] in Hrec.
      rewrite lookup_insert_eq in Hrec. injection Hrec as <-.
      unfold encrypted_record in Hv. rewrite encryptedVaultSchema_value in Hv.
      injection Hv as <-. cbn [Schema.salt Schema.iv Schema.ciphertext] in *.
      rewrite decoded_base64_text in Hsalt, Hiv, Hct'.
      injection Hsalt as <-. injection Hiv as <-. injection Hct' as <-.
      rewrite Hpf in Hkey', Hdata.
      now rewrite (Hrej _ _ _ _ _ _ Hkey Hkey' Hct) in Hdata.
Qed.

Lemma unlockVault_accepts_preset_only_witness :
  (lit "abc" <> UseVault.PRESET ->
   UseVault.unlockVault (lit "abc") Sample.locked_abc
   = (Throw (Error "Incorrect password. Please try again."), Sample.locked_abc))
  /\
  (forall p s,
     In (EvDeriveKey p s)
        (trace (after (UseVault.unlockVault (lit "abc")) Sample.locked_abc)) ->
     In (EvDeriveKey p s) (trace Sample.locked_abc)
     \/ p = Encoding.TextEncoder_encode UseVault.PRESET)
  /\
  (forall (w0 : World) (p c : jsstring) (t0 : Z),
     db w0 = true -> state w0 = Open c t0 ->
     p <> UseVault.PRESET ->
     rejects (subtle (platform w0)) p UseVault.PRESET ->
     UseVault.lockVault p w0 = (Return tt, Sample.locked_abc) ->
     exists e,
       outcome (UseVault.unlockVault (lit "abc")) Sample.locked_abc = Throw e /\
       locked_record (after (UseVault.unlockVault (lit "abc")) Sample.locked_abc)
       = locked_record Sample.locked_abc /\
       state (after (UseVault.unlockVault (lit "abc")) Sample.locked_abc)
       = Locked 1748736000011).
Proof.
  apply (unlockVault_accepts_preset_only (lit "abc") Sample.locked_abc 1748736000011);
    vm_compute; reflexivity.
Defined.

Section WrongPassphrase.
Import UseVault.


End WrongPassphrase.

Lemma sample_rejects_abc_wrong :
  rejects Sample.sample_subtle (lit "abc") (lit "wrong").
Proof.
  intros salt iv k1 k2 data ct. unfold pbkdf2.
  cbn [Sample.sample_subtle subtle_deriveKey subtle_encrypt subtle_decrypt].
  intros [= <-] [= <-] [= <-]. reflexivity.
Qed.



Section AutoLock.
Import UseVault.

(** Past the lock date, on a platform that does not fail, [checkStatus]
    locks the draft it finds under the preset password. *)
Lemma checkStatus_auto_locks (w : World) (r : JsValue) (c : jsstring) (t : Z) :
  reliable (platform w) -> well_behaved (subtle (platform w)) ->
  past_lock_date (platform w) ->
  locked_record w = None ->
  draft_record w = Some r ->
  Schema.vaultContentSchema r
  = Some {| Schema.content := c; Schema.lastUpdated := t |} ->
  exists ct iv salt key t1 tr1 pd1,
    checkStatus w
    = (Return tt,
       {| platform := platform w; trace := tr1;
          idb := idb_locked (idb w) (encrypted_record ct iv salt t1);
          pending := pd1; db := db w; state := Locked t1; error := error w |})
    /\ pbkdf2 (subtle (platform w)) PRESET salt = Some key
    /\ subtle_encrypt (subtle (platform w)) iv key
         (Encoding.TextEncoder_encode c) = Some ct.
Proof.
  intros Hrel Hwb Hpast Hnone Hdraft Hparse.
  pose proof (vaultContentSchema_truthy _ _ Hparse) as Htruthy.
  open_world w. unfold checkStatus, check_locked. run.
  rewrite !(requests_succeed _ Hrel). run. rewrite Hnone. run.
  cbn [truthy]. run. rewrite ?(requests_succeed _ Hrel). run.
  rewrite Hdraft. run. rewrite Htruthy, Hparse. run.
  cbn [Schema.content Schema.lastUpdated].
  rewrite (proj2 (Z.leb_le _ _) (Hpast _)).
  match goal with |- context [encrypt_and_store ?p ?c0 ?W] =>
    destruct (encrypt_and_store_returns p c0 W Hrel Hwb) as [t1 Ht1];
    destruct (encrypt_and_store p c0 W) as [r1 w1] eqn:E
  end.
  cbn [fst] in Ht1. subst r1.
  apply encrypt_and_store_cases in E as (Hpf1 & Hdb1 & Hst1 & Herr1 & Hcases).
  destruct w1 as [pf1 tr1 i1 pd1 db1 st1 er1].
  cbn [platform db idb state error trace pending] in *.
  destruct Hcases as [(e & He & _) | (salt & iv & key & ct & t1' & [= <-] & _ & _ & Hkey & Hct & Hidb1)];
    [discriminate|].
  subst. exists ct, iv, salt, key, t1, tr1, pd1. auto.
Qed.
End AutoLock.

(** C2, as the code has it.  Bootstrap past the lock date, on a platform
    that does not fail, with a well-formed draft and no encrypted record:
    [checkStatus] ends [Locked], an encrypted record that parses is
    stored and the draft is deleted.  A following [unlockVault] with the
    preset password returns and opens the vault with the text that
    [TextDecoder] reads back from the UTF-8 encoding of the draft's
    content: the draft's content itself when that is a well-formed string
    that does not start with U+FEFF. *)
Theorem auto_lock_then_unlock (w : World) (r : JsValue) (c : jsstring) (t : Z) :
  db w = true ->
  reliable (platform w) -> well_behaved (subtle (platform w)) ->
  past_lock_date (platform w) ->
  locked_record w = None ->
  draft_record w = Some r ->
  Schema.vaultContentSchema r = Some {| Schema.content := c; Schema.lastUpdated := t |} ->
  let w1 := after UseVault.checkStatus w in
  let w2 := after (UseVault.unlockVault UseVault.PRESET) w1 in
  let c' := Encoding.TextDecoder_decode (Encoding.TextEncoder_encode c) in
  outcome UseVault.checkStatus w = Return tt /\
  (exists record v,
     locked_record w1 = Some record /\
     Schema.encryptedVaultSchema record = Some v /\
     state w1 = Locked (Schema.lockedAt v)) /\
  draft_record w1 = None /\
  outcome (UseVault.unlockVault UseVault.PRESET) w1 = Return tt /\
  (exists t1 t2,
     state w2 = Open c' t2 /\
     draft_record w2 = Some (draft_value c' t1) /\
     locked_record w2 = None) /\
  (Encoding.utf8_stable c = true -> c' = c).
Proof.
  intros Hdb Hrel Hwb Hpast Hnone Hdraft Hparse. cbv zeta.
  destruct (checkStatus_auto_locks w r c t Hrel Hwb Hpast Hnone Hdraft Hparse)
    as (ct & iv & salt & key & t1 & tr1 & pd1 & Hcheck & Hkey & Hct).
  unfold outcome, after. rewrite Hcheck. cbn [fst snd].
  destruct (encrypted_record_parses ct iv salt t1)
    as (v & Hv & Hlocked & Hsalt & Hiv & Hctx).
  set (W := {| platform := platform w; trace := tr1;
               idb := idb_locked (idb w) (encrypted_record ct iv salt t1);
               pending := pd1; db := db w; state := Locked t1;
               error := error w |}).
  assert (HdbW : db W = true) by exact Hdb.
  assert (Hrec : locked (idb W) !! "vault_data" = Some (encrypted_record ct iv salt t1))
    by apply lookup_insert_eq.
  rewrite (unlockVault_preset W t1 HdbW eq_refl), unlock_caught.
  pose proof (decrypt_and_restore_reliable UseVault.PRESET W _ v salt iv ct key
                Hrel Hrec Hv Hsalt Hiv Hctx Hkey) as Hrun.
  cbn [platform W] in Hrun.
  rewrite (decrypt_encrypt _ Hwb _ _ _ _ Hct) in Hrun.
  destruct Hrun as (t2 & t3 & tr2 & -> & _). cbn [fst snd].
  split; [reflexivity|]. split.
  { exists (encrypted_record ct iv salt t1), v.
    unfold locked_record. rewrite Hrec, Hlocked. auto. }
  split. { unfold draft_record. apply lookup_delete_eq. }
  split; [reflexivity|]. split.
  { exists t2, t3. unfold draft_record, locked_record. cbn [state idb idb_unlocked draft locked].
    rewrite lookup_insert_eq, lookup_delete_eq. auto. }
  apply decode_encode_stable.
Qed.

Lemma auto_lock_then_unlock_witness :
  let w := Sample.booted (Sample.sample_platform Sample.in_2026) (idb Sample.writing) in
  let c := lit "diary entry" in
  let w1 := after UseVault.checkStatus w in
  let w2 := after (UseVault.unlockVault UseVault.PRESET) w1 in
  let c' := Encoding.TextDecoder_decode (Encoding.TextEncoder_encode c) in
  outcome UseVault.checkStatus w = Return tt /\
  (exists record v,
     locked_record w1 = Some record /\
     Schema.encryptedVaultSchema record = Some v /\
     state w1 = Locked (Schema.lockedAt v)) /\
  draft_record w1 = None /\
  outcome (UseVault.unlockVault UseVault.PRESET) w1 = Return tt /\
  (exists t1 t2,
     state w2 = Open c' t2 /\
     draft_record w2 = Some (draft_value c' t1) /\
     locked_record w2 = None) /\
  (Encoding.utf8_stable c = true -> c' = c).
Proof.
  apply (auto_lock_then_unlock
           (Sample.booted (Sample.sample_platform Sample.in_2026) (idb Sample.writing))
           (draft_value (lit "diary entry") 1748736000005)
           (lit "diary entry") 1748736000005).
  - reflexivity.
  - apply sample_reliable.
  - apply sample_well_behaved.
  - intros n. cbn [Sample.booted platform Sample.sample_platform timezoneOffset clock].
    unfold Sample.in_2026. lia.
  - vm_compute. reflexivity.
  - vm_compute. reflexivity.
  - vm_compute. reflexivity.
Defined.

(** C2, as stated, fails: a draft whose text starts with U+FEFF is
    auto-locked, and unlocking with the preset password opens the vault
    with the text less its first character. *)
Lemma auto_lock_then_unlock_drops_bom :
  let w := Sample.booted (Sample.sample_platform Sample.in_2026) (idb Sample.writing_bom) in
  let w1 := after UseVault.checkStatus w in
  let w2 := after (UseVault.unlockVault UseVault.PRESET) w1 in
  draft_record w = Some (draft_value (0xFEFF%N :: lit "diary entry") 1748736000005) /\
  locked_record w = None /\
  state w1 = Locked 1772323200009 /\
  outcome (UseVault.unlockVault UseVault.PRESET) w1 = Return tt /\
  state w2 = Open (lit "diary entry") 1772323200022 /\
  lit "diary entry" <> 0xFEFF%N :: lit "diary entry".
Proof.
  cbv zeta. repeat (split; [vm_compute; reflexivity|]). discriminate.
Qed.

(** C4.  After every transition that went through, exactly one of the
    two records is stored.  After a lock (a [lockVault] that returned on
    an open vault, or a [checkStatus] that started from [Loading] with no
    well-formed encrypted record and ended [Locked]) nothing is stored
    under the draft's key, and the encrypted store holds a record that
    the hook reads as present and well formed, with the [lockedAt] of the
    state.  After an unlock ([unlockVault] of either revision that
    returned on a locked vault) nothing is stored under the encrypted
    record's key, and the draft store holds a well-formed record with the
    text of the state. *)
Theorem records_after_lock_and_unlock (tr : Transition) (w : World) :
  applies tr w -> succeeded tr w ->
  let w' := after (run tr) w in
  if is_lock tr then
    draft_record w' = None /\
    exists v, stored_vault w' = Some v /\ state w' = Locked (Schema.lockedAt v)
  else
    locked_record w' = None /\
    exists d lastUpdated,
      stored_draft w' = Some d /\ state w' = Open (Schema.content d) lastUpdated.
Proof.
  intros Happ Hok. cbv zeta.
  destruct (is_lock tr) eqn:Hlock.
  - destruct (lock_commits tr w Hlock Happ Hok)
      as (n & salt & iv & key & ct & t1 & _ & _ & _ & _ & _ & _ & _ & Hstate & Hidb).
    destruct (idb_locked_records _ _ _ _ _ _ Hidb) as (Hdraft & v & Hv & Hat & _).
    split; [exact Hdraft|]. exists v. now rewrite Hat.
  - destruct Happ as [Hdb Happ], Hok as [Hret _].
    assert (Hunlock : forall kp,
      outcome (try_catch (UseVault.decrypt_and_restore kp)
                 (fun _ => decryption_failed)) w = Return tt ->
      let w' := after (try_catch (UseVault.decrypt_and_restore kp)
                         (fun _ => decryption_failed)) w in
      locked_record w' = None /\
      exists d lastUpdated,
        stored_draft w' = Some d /\ state w' = Open (Schema.content d) lastUpdated).
    { intros kp Hr. cbv zeta.
      pose proof (unlock_attempt_cases kp w) as Hcases. cbv zeta in Hcases.
      destruct Hcases as (_ & _ & _ & [(Hthrow & _) | Hdone]); [congruence|].
      destruct Hdone as (? & ? & ? & ? & ? & ? & data & t1 & t2 & _ & _ & _ & _ & _
                         & _ & _ & _ & Hidb & Hstate).
      unfold locked_record, stored_draft, draft_record. rewrite Hidb, Hstate.
      cbn [idb_unlocked draft locked]. rewrite lookup_delete_eq, lookup_insert_eq.
      split; [reflexivity|].
      exists {| Schema.content := Encoding.TextDecoder_decode data;
                Schema.lastUpdated := t1 |}, t2.
      unfold draft_value. rewrite vaultContentSchema_value. auto. }
    destruct tr as [| |password|password]; try discriminate;
      cbn [run] in *; destruct (state w) as [| |t] eqn:Hst; try discriminate.
    + destruct (decide (password = UseVault.PRESET)) as [-> | Hne].
      * unfold outcome, after in *. rewrite (unlockVault_preset _ _ Hdb Hst) in *.
        now apply Hunlock.
      * unfold outcome in Hret.
        rewrite (unlockVault_refuses _ _ _ Hdb Hst Hne) in Hret. discriminate.
    + unfold outcome, after in *. rewrite (unlockVault_prev _ _ _ Hdb Hst) in *.
      now apply Hunlock.
Qed.

Lemma records_after_lock_and_unlock_witness :
  (let w' := after (UseVault.lockVault (lit "abc")) Sample.writing in
   draft_record w' = None /\
   exists v, stored_vault w' = Some v /\ state w' = Locked (Schema.lockedAt v))
  /\
  (let w' := after UseVault.checkStatus
               (Sample.booted (Sample.sample_platform Sample.in_2026)
                  (idb Sample.writing)) in
   draft_record w' = None /\
   exists v, stored_vault w' = Some v /\ state w' = Locked (Schema.lockedAt v))
  /\
  (let w' := after (UseVault.unlockVault UseVault.PRESET) Sample.auto_locked in
   locked_record w' = None /\
   exists d lastUpdated,
     stored_draft w' = Some d /\ state w' = Open (Schema.content d) lastUpdated)
  /\
  (let w' := after (UseVaultPrev.unlockVault (lit "abc")) Sample.locked_abc in
   locked_record w' = None /\
   exists d lastUpdated,
     stored_draft w' = Some d /\ state w' = Open (Schema.content d) lastUpdated).
Proof.
  split; [|split; [|split]].
  - apply (records_after_lock_and_unlock (Lock (lit "abc")) Sample.writing).
    + split; vm_compute; reflexivity.
    + split; [vm_compute; reflexivity|exact I].
  - apply (records_after_lock_and_unlock AutoLock
             (Sample.booted (Sample.sample_platform Sample.in_2026)
                (idb Sample.writing))).
    + split; [reflexivity|]. split; [reflexivity|]. vm_compute. reflexivity.
    + split; vm_compute; reflexivity.
  - apply (records_after_lock_and_unlock (Unlock UseVault.PRESET) Sample.auto_locked).
    + split; vm_compute; reflexivity.
    + split; [vm_compute; reflexivity|exact I].
  - apply (records_after_lock_and_unlock (UnlockPrev (lit "abc")) Sample.locked_abc).
    + split; vm_compute; reflexivity.
    + split; [vm_compute; reflexivity|exact I].
Defined.

(** C1, as the code has it.  A locked vault whose record parses and
    decodes, on a platform whose storage does not fail.  In the earlier
    revision [unlockVault] derives the key from the stored salt and the
    password supplied, returns with the decrypted text when AES-GCM
    authenticates the ciphertext under that key, and throws "Incorrect
    password or corrupted data." when it does not: nothing else decides.
    The shipped revision first compares the password with "DPBYDT": any
    other password is refused with the world untouched, and "DPBYDT" is
    then handled as in the earlier revision. *)
Theorem unlockVault_key_and_verdict
    (password : jsstring) (w : World) (t : Z)
    (r : JsValue) (v : Schema.EncryptedVault) (salt iv ct key : bytes) :
  db w = true -> state w = Locked t -> reliable (platform w) ->
  locked_record w = Some r ->
  Schema.encryptedVaultSchema r = Some v ->
  decoded (Schema.salt v) = Some salt ->
  decoded (Schema.iv v) = Some iv ->
  decoded (Schema.ciphertext v) = Some ct ->
  pbkdf2 (subtle (platform w)) password salt = Some key ->
  (match subtle_decrypt (subtle (platform w)) iv key ct with
   | Some data =>
       outcome (UseVaultPrev.unlockVault password) w = Return tt /\
       (exists t2, state (after (UseVaultPrev.unlockVault password) w)
                   = Open (Encoding.TextDecoder_decode data) t2) /\
       In (EvDeriveKey (Encoding.TextEncoder_encode password) salt)
          (trace (after (UseVaultPrev.unlockVault password) w))
   | None =>
       outcome (UseVaultPrev.unlockVault password) w
       = Throw (Error "Incorrect password or corrupted data.") /\
       state (after (UseVaultPrev.unlockVault password) w) = Locked t /\
       In (EvDeriveKey (Encoding.TextEncoder_encode password) salt)
          (trace (after (UseVaultPrev.unlockVault password) w))
   end)
  /\
  (password = UseVault.PRESET ->
   UseVault.unlockVault password w = UseVaultPrev.unlockVault password w)
  /\
  (password <> UseVault.PRESET ->
   UseVault.unlockVault password w
   = (Throw (Error "Incorrect password. Please try again."), w)).
Proof.
  intros Hdb Hst Hrel Hr Hv Hsalt Hiv Hct Hkey.
  split; [|split].
  - pose proof (decrypt_and_restore_reliable password w r v salt iv ct key
                  Hrel Hr Hv Hsalt Hiv Hct Hkey) as Hrun.
    unfold outcome, after. rewrite (unlockVault_prev _ _ _ Hdb Hst), unlock_caught.
    destruct (subtle_decrypt (subtle (platform w)) iv key ct) as [data|].
    + destruct Hrun as (t1 & t2 & tr' & -> & Hin). cbn [fst snd state trace].
      split; [reflexivity|]. split; [now exists t2|exact Hin].
    + rewrite Hrun. cbn [fst snd state trace In].
      split; [reflexivity|]. split; [exact Hst|]. auto.
  - intros ->. now rewrite (unlockVault_preset _ _ Hdb Hst), (unlockVault_prev _ _ _ Hdb Hst).
  - intros Hne. now apply unlockVault_refuses with t.
Qed.

Lemma unlockVault_key_and_verdict_witness :
  let password := lit "abc" in
  let w := Sample.on (Sample.sample_platform Sample.in_2025) Sample.locked_abc in
  let v := Sample.locked_abc_vault in
  let salt := default [] (decoded (Schema.salt v)) in
  let iv := default [] (decoded (Schema.iv v)) in
  let ct := default [] (decoded (Schema.ciphertext v)) in
  let key := default [] (pbkdf2 Sample.sample_subtle password salt) in
  (match subtle_decrypt (subtle (platform w)) iv key ct with
   | Some data =>
       outcome (UseVaultPrev.unlockVault password) w = Return tt /\
       (exists t2, state (after (UseVaultPrev.unlockVault password) w)
                   = Open (Encoding.TextDecoder_decode data) t2) /\
       In (EvDeriveKey (Encoding.TextEncoder_encode password) salt)
          (trace (after (UseVaultPrev.unlockVault password) w))
   | None =>
       outcome (UseVaultPrev.unlockVault password) w
       = Throw (Error "Incorrect password or corrupted data.") /\
       state (after (UseVaultPrev.unlockVault password) w) = Locked 1748736000011 /\
       In (EvDeriveKey (Encoding.TextEncoder_encode password) salt)
          (trace (after (UseVaultPrev.unlockVault password) w))
   end)
  /\
  (password = UseVault.PRESET ->
   UseVault.unlockVault password w = UseVaultPrev.unlockVault password w)
  /\
  (password <> UseVault.PRESET ->
   UseVault.unlockVault password w
   = (Throw (Error "Incorrect password. Please try again."), w)).
Proof.
  apply (unlockVault_key_and_verdict (lit "abc")
           (Sample.on (Sample.sample_platform Sample.in_2025) Sample.locked_abc)
           1748736000011 Sample.locked_abc_record Sample.locked_abc_vault).
  - reflexivity.
  - vm_compute. reflexivity.
  - apply sample_reliable.
  - vm_compute. reflexivity.
  - vm_compute. reflexivity.
  - vm_compute. reflexivity.
  - vm_compute. reflexivity.
  - vm_compute. reflexivity.
  - vm_compute. reflexivity.
Defined.

(** C1, as stated, fails in the shipped revision: the record of the vault
    locked with "abc" authenticates under the key derived from its salt
    and "abc", yet [unlockVault] with "abc" reports an incorrect password,
    and does so without a call to the platform. *)
Lemma unlockVault_compares_with_preset :
  let w := Sample.locked_abc in
  let v := Sample.locked_abc_vault in
  locked_record w = Some (Schema.EncryptedVault_value v) /\
  (salt ← decoded (Schema.salt v);
   iv ← decoded (Schema.iv v);
   ct ← decoded (Schema.ciphertext v);
   key ← pbkdf2 (subtle (platform w)) (lit "abc") salt;
   subtle_decrypt (subtle (platform w)) iv key ct)
  = Some (Encoding.TextEncoder_encode (lit "diary entry")) /\
  outcome (UseVault.unlockVault (lit "abc")) w
  = Throw (Error "Incorrect password. Please try again.") /\
  trace (after (UseVault.unlockVault (lit "abc")) w) = trace w /\
  outcome (UseVaultPrev.unlockVault (lit "abc")) w = Return tt.
Proof.
  cbv zeta. repeat (split; [vm_compute; reflexivity|]). vm_compute. reflexivity.
Qed.

(** ** The crypto wrappers: round trip *)

(** C8, as the code has it.  For a well-formed string [s] that does not
    start with U+FEFF, and any password, salt and iv: when PBKDF2 returns
    a key and AES-GCM a ciphertext of [s] under it, deriving the key,
    encrypting [s] and decrypting the result returns exactly [s]. *)
Theorem round_trip_returns_plaintext
    (s password : jsstring) (salt iv key ct : bytes) (w : World) :
  well_behaved (subtle (platform w)) ->
  Encoding.utf8_stable s = true ->
  pbkdf2 (subtle (platform w)) password salt = Some key ->
  subtle_encrypt (subtle (platform w)) iv key (Encoding.TextEncoder_encode s) = Some ct ->
  outcome (round_trip s password salt iv) w = Return s.
Proof.
  intros Hwb Hs Hkey Hct. unfold outcome. open_world w.
  unfold round_trip, pbkdf2 in *. run. rewrite Hkey. run. rewrite Hct. run.
  rewrite (decrypt_encrypt _ Hwb _ _ _ _ Hct). run.
  now rewrite decode_encode_stable.
Qed.

Lemma round_trip_returns_plaintext_witness :
  outcome (round_trip (lit "hello") (lit "abc") [x01; x02] [x03; x04])
    (Sample.fresh (Sample.sample_platform Sample.in_2025))
  = Return (lit "hello").
Proof.
  apply (round_trip_returns_plaintext (lit "hello") (lit "abc") [x01; x02] [x03; x04]
           (Encoding.TextEncoder_encode (lit "abc") ++ [x01; x02])
           ((Encoding.TextEncoder_encode (lit "abc") ++ [x01; x02])
            ++ [x03; x04] ++ Encoding.TextEncoder_encode (lit "hello"))).
  - apply sample_well_behaved.
  - vm_compute. reflexivity.
  - reflexivity.
  - reflexivity.
Defined.

(** C8, as stated, fails: the string that is the single character U+FEFF
    comes back empty. *)
Lemma round_trip_drops_bom :
  outcome (round_trip [0xFEFF%N] (lit "abc") [x01; x02] [x03; x04])
    (Sample.fresh (Sample.sample_platform Sample.in_2025))
  = Return [] /\
  @nil N <> [0xFEFF%N].
Proof. split; [vm_compute; reflexivity|discriminate]. Qed.

(** ** Salt and iv *)

(** C9.  Every lock that goes through, by hand or at bootstrap, makes
    two new requests to [getRandomValues], for 16 and then for 12 bytes,
    and the record it stores has the answers, and nothing else, as salt
    and iv; the key is derived from the passphrase and that salt.  Of two
    locks in one session the later makes its requests after those of the
    earlier, so when the random source did not repeat an answer the two
    salts differ, and so do the two ivs; and when PBKDF2 derives
    different keys under different salts, the keys of two locks with the
    same passphrase differ. *)
Theorem locks_draw_fresh_salt_and_iv (l1 l2 : Transition) (w1 w2 : World) :
  is_lock l1 = true -> is_lock l2 = true ->
  applies l1 w1 -> succeeded l1 w1 ->
  applies l2 w2 -> succeeded l2 w2 ->
  platform w2 = platform w1 ->
  (length (trace (after (run l1) w1)) <= length (trace w2))%nat ->
  exists n1 n2 salt1 iv1 key1 salt2 iv2 key2,
    stores_drawn l1 w1 n1 salt1 iv1 key1 /\
    stores_drawn l2 w2 n2 salt2 iv2 key2 /\
    (S n1 < n2)%nat /\
    (never_repeats (platform w1) (length (trace (after (run l2) w2))) ->
     salt1 <> salt2 /\ iv1 <> iv2 /\
     (salted (subtle (platform w1)) ->
      passphrase l1 = passphrase l2 -> key1 <> key2)).
Proof.
  intros Hl1 Hl2 Happ1 Hok1 Happ2 Hok2 Hpf Hlater.
  destruct (lock_stores_drawn l1 w1 Hl1 Happ1 Hok1) as (n1 & salt1 & iv1 & key1 & H1).
  destruct (lock_stores_drawn l2 w2 Hl2 Happ2 Hok2) as (n2 & salt2 & iv2 & key2 & H2).
  exists n1, n2, salt1, iv1, key1, salt2, iv2, key2.
  split; [exact H1|]. split; [exact H2|].
  destruct H1 as (_ & Hlen1 & _ & _ & Hs1 & Hi1 & Hk1 & _).
  destruct H2 as (Hge2 & Hlen2 & _ & _ & Hs2 & Hi2 & Hk2 & _).
  cbv zeta in *. rewrite Hpf in *.
  split; [lia|]. intros Hfresh.
  assert (Hsalt : salt1 <> salt2)
    by (apply (Hfresh n1 n2 16%nat); [lia|lia|assumption..]).
  split; [exact Hsalt|]. split.
  - apply (Hfresh (S n1) (S n2) 12%nat); [lia|lia|assumption..].
  - intros Hsalted Hsame. rewrite Hsame in Hk1.
    exact (Hsalted _ _ _ _ _ Hk1 Hk2 Hsalt).
Qed.

Lemma to_N_byte_of_N_mod (n : N) : Byte.to_N (byte_of_N n) = (n mod 256)%N.
Proof.
  assert (H : byte_of_N n = byte_of_N (n mod 256))
    by (unfold byte_of_N; now rewrite N.Div0.mod_mod).
  rewrite H. apply to_N_byte_of_N. now apply N.mod_lt.
Qed.

Lemma sample_never_repeats (t0 : Z) (calls : nat) :
  (calls <= 256)%nat -> never_repeats (Sample.sample_platform t0) calls.
Proof.
  intros Hcalls n m k a b Hnm Hk. unfold drawn.
  cbn [Sample.sample_platform entropy]. intros [= <-] [= <-].
  destruct k as [|k]; [lia|]. cbn [seq map]. intros [= H _].
  apply (f_equal Byte.to_N) in H. rewrite !to_N_byte_of_N_mod in H.
  zify. Z.to_euclidean_division_equations. lia.
Qed.

Lemma sample_salted : salted Sample.sample_subtle.
Proof.
  intros password salt1 salt2 key1 key2. unfold pbkdf2.
  cbn [Sample.sample_subtle subtle_deriveKey]. intros [= <-] [= <-] Hne H.
  now apply app_inv_head in H.
Qed.

Lemma locks_draw_fresh_salt_and_iv_witness :
  (let p := Sample.sample_platform Sample.in_2025 in
   let w1 := Sample.on p Sample.writing in
   let w2 := Sample.on p
               (after (UseVaultPrev.unlockVault (lit "abc"))
                  (after (UseVault.lockVault (lit "abc")) w1)) in
   exists n1 n2 salt1 iv1 key1 salt2 iv2 key2,
     stores_drawn (Lock (lit "abc")) w1 n1 salt1 iv1 key1 /\
     stores_drawn (Lock (lit "abc")) w2 n2 salt2 iv2 key2 /\
     (S n1 < n2)%nat /\ salt1 <> salt2 /\ iv1 <> iv2 /\ key1 <> key2)
  /\
  (let p := Sample.sample_platform Sample.in_2026 in
   let w1 := Sample.booted p (idb Sample.writing) in
   let w2 := Sample.on p
               (after (UseVault.unlockVault UseVault.PRESET)
                  (after UseVault.checkStatus w1)) in
   exists n1 n2 salt1 iv1 key1 salt2 iv2 key2,
     stores_drawn AutoLock w1 n1 salt1 iv1 key1 /\
     stores_drawn (Lock UseVault.PRESET) w2 n2 salt2 iv2 key2 /\
     (S n1 < n2)%nat /\ salt1 <> salt2 /\ iv1 <> iv2 /\ key1 <> key2).
Proof.
  split; cbv zeta.
  - destruct (locks_draw_fresh_salt_and_iv (Lock (lit "abc")) (Lock (lit "abc"))
                (Sample.on (Sample.sample_platform Sample.in_2025) Sample.writing)
                (Sample.on (Sample.sample_platform Sample.in_2025)
                   (after (UseVaultPrev.unlockVault (lit "abc"))
                      (after (UseVault.lockVault (lit "abc"))
                         (Sample.on (Sample.sample_platform Sample.in_2025)
                            Sample.writing)))))
      as (n1 & n2 & salt1 & iv1 & key1 & salt2 & iv2 & key2 & H1 & H2 & Hlt & Hfresh).
    + reflexivity.
    + reflexivity.
    + split; vm_compute; reflexivity.
    + split; [vm_compute; reflexivity|exact I].
    + split; vm_compute; reflexivity.
    + split; [vm_compute; reflexivity|exact I].
    + reflexivity.
    + vm_compute. lia.
    + exists n1, n2, salt1, iv1, key1, salt2, iv2, key2.
      destruct Hfresh as (Hs & Hi & Hk).
      { apply sample_never_repeats. vm_compute. lia. }
      repeat (split; [assumption|]). apply Hk; [apply sample_salted|reflexivity].
  - destruct (locks_draw_fresh_salt_and_iv AutoLock (Lock UseVault.PRESET)
                (Sample.booted (Sample.sample_platform Sample.in_2026)
                   (idb Sample.writing))
                (Sample.on (Sample.sample_platform Sample.in_2026)
                   (after (UseVault.unlockVault UseVault.PRESET)
                      (after UseVault.checkStatus
                         (Sample.booted (Sample.sample_platform Sample.in_2026)
                            (idb Sample.writing))))))
      as (n1 & n2 & salt1 & iv1 & key1 & salt2 & iv2 & key2 & H1 & H2 & Hlt & Hfresh).
    + reflexivity.
    + reflexivity.
    + split; [reflexivity|]. split; [reflexivity|]. vm_compute. reflexivity.
    + split; vm_compute; reflexivity.
    + split; vm_compute; reflexivity.
    + split; [vm_compute; reflexivity|exact I].
    + reflexivity.
    + vm_compute. lia.
    + exists n1, n2, salt1, iv1, key1, salt2, iv2, key2.
      destruct Hfresh as (Hs & Hi & Hk).
      { apply sample_never_repeats. vm_compute. lia. }
      repeat (split; [assumption|]). apply Hk; [apply sample_salted|reflexivity].
Defined.

(** * Further properties of the code *)

(** ** The crypto wrappers *)

(** X1.  [bufferToBase64] never throws, and [base64ToBuffer] reads the
    text it returns back into the same buffer; neither touches the
    world. *)
Theorem base64_buffer_round_trip (buffer : bytes) (w : World) :
  exists text,
    Crypto.bufferToBase64 buffer w = (Return text, w) /\
    Crypto.base64ToBuffer text w = (Return buffer, w).
Proof.
  exists (base64_text buffer).
  split; [apply bufferToBase64_returns|apply base64ToBuffer_base64_text].
Qed.

(** X2.  What the round trip through [encryptContent] and
    [decryptContent] returns for any string: its scalar values with every
    unpaired surrogate replaced by U+FFFD and a leading U+FEFF dropped. *)
Theorem round_trip_reads_back
    (s password : jsstring) (salt iv key ct : bytes) (w : World) :
  well_behaved (subtle (platform w)) ->
  jsstring_ok s = true ->
  pbkdf2 (subtle (platform w)) password salt = Some key ->
  subtle_encrypt (subtle (platform w)) iv key (Encoding.TextEncoder_encode s) = Some ct ->
  outcome (round_trip s password salt iv) w = Return (read_back s).
Proof.
  intros Hwb Hs Hkey Hct. unfold outcome. open_world w.
  unfold round_trip, pbkdf2 in *. run. rewrite Hkey. run. rewrite Hct. run.
  rewrite (decrypt_encrypt _ Hwb _ _ _ _ Hct). run.
  now rewrite decode_encode.
Qed.

Lemma round_trip_reads_back_witness :
  outcome (round_trip [0x68; 0xD800; 0x69]%N (lit "abc") [x01; x02] [x03; x04])
    (Sample.fresh (Sample.sample_platform Sample.in_2025))
  = Return (read_back [0x68; 0xD800; 0x69]%N).
Proof.
  apply (round_trip_reads_back [0x68; 0xD800; 0x69]%N (lit "abc") [x01; x02] [x03; x04]
           (Encoding.TextEncoder_encode (lit "abc") ++ [x01; x02])
           ((Encoding.TextEncoder_encode (lit "abc") ++ [x01; x02])
            ++ [x03; x04] ++ Encoding.TextEncoder_encode [0x68; 0xD800; 0x69]%N)).
  - apply sample_well_behaved.
  - vm_compute. reflexivity.
  - reflexivity.
  - reflexivity.
Defined.

(** ** The record schemas *)

(** X3.  What the hook writes parses back: the schemas return the very
    record whose object literal was stored, and a draft object without a
    [content] property parses with empty content (the schema's default). *)
Theorem schemas_parse_what_is_written
    (d : Schema.VaultContent) (v : Schema.EncryptedVault)
    (t : Z) (other : JsValue) :
  Schema.vaultContentSchema (Schema.VaultContent_value d) = Some d /\
  Schema.encryptedVaultSchema (Schema.EncryptedVault_value v) = Some v /\
  Schema.vaultContentSchema
    (JObject [("lastUpdated"%string, JNumber t); ("extra"%string, other)])
  = Some {| Schema.content := []; Schema.lastUpdated := t |} /\
  Schema.vaultContentSchema (JObject [("content"%string, JString (Schema.content d))])
  = None /\
  Schema.encryptedVaultSchema (Schema.VaultContent_value d) = None.
Proof.
  split; [apply vaultContentSchema_value|].
  split; [apply encryptedVaultSchema_value|].
  destruct d. repeat split; reflexivity.
Qed.

(** ** Operations outside their state *)

(** X4.  While the database handle is not set, every operation of the
    hook returns without calling the platform or changing anything. *)
Theorem operations_wait_for_db (w : World) (text password : jsstring) :
  db w = false ->
  UseVault.saveDraft text w = (Return tt, w) /\
  UseVault.lockVault password w = (Return tt, w) /\
  UseVault.unlockVault password w = (Return tt, w) /\
  UseVaultPrev.unlockVault password w = (Return tt, w) /\
  UseVault.downloadVault w = (Return tt, w) /\
  when_db_ready UseVault.checkStatus w = (Return tt, w) /\
  when_db_ready UseVaultPrev.checkStatus w = (Return tt, w).
Proof.
  intros Hdb.
  unfold UseVault.saveDraft, UseVault.lockVault, UseVault.unlockVault,
    UseVaultPrev.unlockVault, UseVault.downloadVault, when_db_ready.
  cbv [bind get_world ret]. rewrite Hdb. cbn [negb]. auto 10.
Qed.

Lemma operations_wait_for_db_witness :
  let w := Sample.fresh (Sample.sample_platform Sample.in_2025) in
  UseVault.saveDraft (lit "x") w = (Return tt, w) /\
  UseVault.lockVault (lit "abc") w = (Return tt, w) /\
  UseVault.unlockVault (lit "abc") w = (Return tt, w) /\
  UseVaultPrev.unlockVault (lit "abc") w = (Return tt, w) /\
  UseVault.downloadVault w = (Return tt, w) /\
  when_db_ready UseVault.checkStatus w = (Return tt, w) /\
  when_db_ready UseVaultPrev.checkStatus w = (Return tt, w).
Proof.
  apply (operations_wait_for_db
           (Sample.fresh (Sample.sample_platform Sample.in_2025)) (lit "x") (lit "abc")).
  reflexivity.
Defined.

(** X5.  [lockVault] on a vault that is not open, and [unlockVault] (of
    either revision) on a vault that is not locked, return without an
    error and change nothing: no call to the platform, no write. *)
Theorem lock_and_unlock_need_their_state (w : World) (password : jsstring) :
  (is_open (state w) = false -> UseVault.lockVault password w = (Return tt, w)) /\
  (is_locked (state w) = false ->
   UseVault.unlockVault password w = (Return tt, w) /\
   UseVaultPrev.unlockVault password w = (Return tt, w)).
Proof.
  split.
  - intros Hst. unfold UseVault.lockVault. cbv [bind get_world ret].
    destruct (db w); [|reflexivity]. now destruct (state w).
  - intros Hst. apply unlockVault_not_locked. auto.
Qed.

(** ** Bootstrap *)

Section BootstrapOutcomes.
Import UseVault.

Local Ltac ended :=
  intros [= <- <-]; cbn [platform db idb state error]; subst;
  (split; [reflexivity|split; [reflexivity|split; [reflexivity|]]]).

(** X6.  [checkStatus] never throws, and ends in one of four ways: an
    error is set, state and database as they were; a stored encrypted
    record that parses decides [Locked]; the vault is [Open]; or the
    auto-lock committed.  Only the last changes the database. *)
Theorem checkStatus_outcomes (w : World) :
  let w' := after checkStatus w in
  outcome checkStatus w = Return tt /\
  platform w' = platform w /\ db w' = db w /\
  ((error w' = Some "Failed to load vault status."%string
    /\ state w' = state w /\ idb w' = idb w) \/
   (exists record v,
      locked_record w = Some record /\
      Schema.encryptedVaultSchema record = Some v /\
      state w' = Locked (Schema.lockedAt v) /\ idb w' = idb w) \/
   (exists content lastUpdated,
      state w' = Open content lastUpdated /\ idb w' = idb w) \/
   (exists record lockedAt,
      state w' = Locked lockedAt /\ idb w' = idb_locked (idb w) record)).
Proof.
  cbv zeta. unfold outcome, after.
  destruct (checkStatus w) as [r w'] eqn:E. cbn [fst snd]. revert E.
  open_world w. unfold checkStatus, check_locked. run.
  destruct (request_ok pf (length tr)); run; [|ended; auto 10].
  destruct (lm !! "vault_data") as [rec|] eqn:Hrec; run;
    [destruct (truthy rec); run;
     [destruct (Schema.encryptedVaultSchema rec) as [v|] eqn:Hv; run;
      [ended; right; left; exists rec, v; auto|]|]|].
  all: cbn [truthy]; run.
  all: (destruct (request_ok pf _); run; [|ended; auto 10]).
  all: (destruct (dm !! "current") as [record|]; run;
        [destruct (truthy record); run;
         [destruct (Schema.vaultContentSchema record) as [d|]; run|]|]).
  all: cbn [truthy]; run.
  all: destruct (_ <=? _)%Z;
    [ match goal with
      | |- context [encrypt_and_store ?p ?c ?W] =>
          destruct (encrypt_and_store p c W) as [r1 w1] eqn:E;
          apply encrypt_and_store_cases in E as (Hpf1 & Hdb1 & _ & _ & Hcases);
          destruct w1 as [pf1 tr1 i1 pd1 db1 st1 er1];
          cbn [platform db idb state error trace pending] in *;
          destruct Hcases as [(e & -> & Hidb1) | (? & ? & ? & ? & t1 & -> & _ & _ & _ & _ & Hidb1)];
          run; ended; right; right;
          [left | right]; do 2 eexists; split; reflexivity
      end
    | run; ended; right; right; left; do 2 eexists; split; reflexivity ].
Qed.

(** X7.  The earlier revision's [checkStatus] never throws and never
    writes: it ends with an error set, [Locked] by a stored record that
    parses, or [Open]. *)
Theorem checkStatus_prev_outcomes (w : World) :
  let w' := after UseVaultPrev.checkStatus w in
  outcome UseVaultPrev.checkStatus w = Return tt /\
  platform w' = platform w /\ db w' = db w /\ idb w' = idb w /\
  ((error w' = Some "Failed to load vault status."%string /\ state w' = state w) \/
   (exists record v,
      locked_record w = Some record /\
      Schema.encryptedVaultSchema record = Some v /\
      state w' = Locked (Schema.lockedAt v)) \/
   (exists content lastUpdated, state w' = Open content lastUpdated)).
Proof.
  cbv zeta. unfold outcome, after.
  destruct (UseVaultPrev.checkStatus w) as [r w'] eqn:E. cbn [fst snd]. revert E.
  open_world w. unfold UseVaultPrev.checkStatus, check_locked. run.
  destruct (request_ok pf (length tr)); run;
    [|intros [= <- <-]; cbn [platform db idb state error]; auto 10].
  destruct (lm !! "vault_data") as [rec|] eqn:Hrec; run;
    [destruct (truthy rec); run;
     [destruct (Schema.encryptedVaultSchema rec) as [v|] eqn:Hv; run;
      [intros [= <- <-]; cbn [platform db idb state error];
       repeat (split; [reflexivity|]); right; left; exists rec, v; auto|]|]|].
  all: cbn [truthy]; run.
  all: (destruct (request_ok pf _); run;
        [|intros [= <- <-]; cbn [platform db idb state error]; auto 10]).
  all: (destruct (dm !! "current") as [record|]; run;
        [destruct (truthy record); run;
         [destruct (Schema.vaultContentSchema record) as [d|]; run|]|]).
  all: cbn [truthy]; run.
  all: intros [= <- <-]; cbn [platform db idb state error];
    repeat (split; [reflexivity|]); right; right; do 2 eexists; reflexivity.
Qed.
End BootstrapOutcomes.

Section BeforeTheLockDate.
Import UseVault.

(** X8.  Reload before the lock date, on a platform whose storage does
    not fail: nothing is written, and the vault opens with the stored
    draft's content and timestamp when the draft parses, and with empty
    content and a reading of the clock when there is no draft or the
    draft does not parse (the draft that does not parse stays stored). *)
Theorem checkStatus_opens_draft (w : World) :
  reliable (platform w) -> before_lock_date (platform w) ->
  locked_record w = None ->
  let w' := after checkStatus w in
  outcome checkStatus w = Return tt /\
  idb w' = idb w /\ error w' = error w /\
  match draft_record w with
  | Some record =>
      if truthy record then
        match Schema.vaultContentSchema record with
        | Some d => state w' = Open (Schema.content d) (Schema.lastUpdated d)
        | None => exists n, state w' = Open [] (clock (platform w) n)
        end
      else exists n, state w' = Open [] (clock (platform w) n)
  | None => exists n, state w' = Open [] (clock (platform w) n)
  end.
Proof.
  intros Hrel Hbefore Hnone. cbv zeta. unfold outcome, after. open_world w.
  unfold checkStatus, check_locked. run.
  rewrite !(requests_succeed _ Hrel). run. rewrite Hnone. run.
  cbn [truthy]. run. rewrite ?(requests_succeed _ Hrel). run.
  destruct (dm !! "current") as [record|]; run;
    [destruct (truthy record); run;
     [destruct (Schema.vaultContentSchema record) as [d|]; run|]|].
  all: cbn [truthy]; run.
  all: rewrite (proj2 (Z.leb_gt _ _) (Hbefore _)); run.
  all: repeat (split; [reflexivity|]); eauto.
Qed.

(** X9.  Past the lock date, with the random source unavailable: the
    auto-lock fails, nothing is written and no error is set; the vault
    opens with the draft. *)
Theorem failed_auto_lock_opens_draft
    (w : World) (r : JsValue) (d : Schema.VaultContent) :
  (forall n, request_ok (platform w) n = true) ->
  no_entropy (platform w) ->
  past_lock_date (platform w) ->
  locked_record w = None ->
  draft_record w = Some r ->
  Schema.vaultContentSchema r = Some d ->
  let w' := after checkStatus w in
  outcome checkStatus w = Return tt /\
  state w' = Open (Schema.content d) (Schema.lastUpdated d) /\
  idb w' = idb w /\ error w' = error w.
Proof.
  intros Hok Hno Hpast Hnone Hdraft Hparse.
  pose proof (vaultContentSchema_truthy _ _ Hparse) as Htruthy.
  cbv zeta. unfold outcome, after. open_world w.
  unfold checkStatus, check_locked, encrypt_and_store. run.
  rewrite !Hok. run. rewrite Hnone. run.
  cbn [truthy]. run. rewrite ?Hok. run.
  rewrite Hdraft. run. rewrite Htruthy, Hparse. run.
  rewrite (proj2 (Z.leb_le _ _) (Hpast _)). run.
  rewrite Hno. run. auto.
Qed.
End BeforeTheLockDate.

Lemma frozen_reliable (t0 : Z) : reliable (Sample.frozen_platform t0).
Proof. split; cbn [Sample.frozen_platform request_ok entropy]; eauto. Qed.

Lemma checkStatus_opens_draft_witness :
  let w := Sample.booted (Sample.frozen_platform Sample.in_2025) (idb Sample.writing) in
  let w' := after UseVault.checkStatus w in
  outcome UseVault.checkStatus w = Return tt /\
  idb w' = idb w /\ error w' = error w /\
  match draft_record w with
  | Some record =>
      if truthy record then
        match Schema.vaultContentSchema record with
        | Some d => state w' = Open (Schema.content d) (Schema.lastUpdated d)
        | None => exists n, state w' = Open [] (clock (platform w) n)
        end
      else exists n, state w' = Open [] (clock (platform w) n)
  | None => exists n, state w' = Open [] (clock (platform w) n)
  end.
Proof.
  apply (checkStatus_opens_draft
           (Sample.booted (Sample.frozen_platform Sample.in_2025) (idb Sample.writing))).
  - apply frozen_reliable.
  - intros n. cbn [Sample.booted platform Sample.frozen_platform timezoneOffset clock].
    unfold Sample.in_2025. lia.
  - vm_compute. reflexivity.
Defined.

Lemma failed_auto_lock_opens_draft_witness :
  let w := Sample.booted
             (Sample.without_entropy (Sample.sample_platform Sample.in_2026))
             (idb Sample.writing) in
  let d := {| Schema.content := lit "diary entry";
              Schema.lastUpdated := 1748736000005 |} in
  let w' := after UseVault.checkStatus w in
  outcome UseVault.checkStatus w = Return tt /\
  state w' = Open (Schema.content d) (Schema.lastUpdated d) /\
  idb w' = idb w /\ error w' = error w.
Proof.
  apply (failed_auto_lock_opens_draft
           (Sample.booted
              (Sample.without_entropy (Sample.sample_platform Sample.in_2026))
              (idb Sample.writing))
           (draft_value (lit "diary entry") 1748736000005)
           {| Schema.content := lit "diary entry";
              Schema.lastUpdated := 1748736000005 |}).
  - reflexivity.
  - intros n. reflexivity.
  - intros n. cbn [Sample.booted platform Sample.without_entropy
                   Sample.sample_platform timezoneOffset clock].
    unfold Sample.in_2026. lia.
  - vm_compute. reflexivity.
  - vm_compute. reflexivity.
  - vm_compute. reflexivity.
Defined.

(** ** Save, export, and opening the database *)

(** X10.  [saveDraft] with the database open never throws.  Either the
    draft record becomes the text with a reading of the clock, the
    encrypted store is untouched, and an open vault mirrors the record
    (any other state is kept); or the write failed: state and database
    are as they were and the error "Failed to save changes." is set. *)
Theorem saveDraft_outcomes (text : jsstring) (w : World) :
  db w = true ->
  let w' := after (UseVault.saveDraft text) w in
  outcome (UseVault.saveDraft text) w = Return tt /\
  platform w' = platform w /\ db w' = db w /\
  ((exists n,
      idb w' = {| draft := <["current" := draft_value text (clock (platform w) n)]>
                             (draft (idb w));
                  locked := locked (idb w) |} /\
      state w' = match state w with
                 | Open _ _ => Open text (clock (platform w) n)
                 | s => s
                 end /\
      error w' = error w) \/
   (idb w' = idb w /\ state w' = state w /\
    error w' = Some "Failed to save changes."%string)).
Proof.
  intros Hdb. cbv zeta. unfold outcome, after. open_world w. subst dbh.
  unfold UseVault.saveDraft. run.
  destruct (request_ok pf _); run.
  - repeat (split; [reflexivity|]). left. eexists. repeat split.
  - repeat (split; [reflexivity|]). right. auto.
Qed.

Lemma saveDraft_outcomes_witness :
  let text := lit "more" in
  let w := Sample.writing in
  let w' := after (UseVault.saveDraft text) w in
  outcome (UseVault.saveDraft text) w = Return tt /\
  platform w' = platform w /\ db w' = db w /\
  ((exists n,
      idb w' = {| draft := <["current" := draft_value text (clock (platform w) n)]>
                             (draft (idb w));
                  locked := locked (idb w) |} /\
      state w' = match state w with
                 | Open _ _ => Open text (clock (platform w) n)
                 | s => s
                 end /\
      error w' = error w) \/
   (idb w' = idb w /\ state w' = state w /\
    error w' = Some "Failed to save changes."%string)).
Proof.
  apply (saveDraft_outcomes (lit "more") Sample.writing). vm_compute. reflexivity.
Defined.

(** Every value that [if (v)] lets through has a JSON form. *)
Lemma stringify_truthy (v : JsValue) :
  truthy v = true -> is_Some (JSON.stringify v).
Proof.
  unfold JSON.stringify. destruct v as [| |[|]|n|s|fields]; cbn [truthy JSON.serialize];
    try discriminate; intros _; eauto.
  match goal with |- is_Some (match ?partial with _ => _ end) => destruct partial end;
    eauto.
Qed.

(** X11.  [downloadVault] with the database open writes nothing and
    changes neither state nor error.  When the read of the encrypted
    store succeeds and finds a record (one that is not a falsy value),
    the clock is read once and the browser is handed a file that holds
    the text [JSON.stringify] gives for exactly that record, named
    vault-backup-, the UTC day of the reading as YYYY-MM-DD, .json; when
    nothing is stored, it returns without a further call.  A failed read
    is not caught: it is thrown.  (A clock reading that is not a date
    makes [toISOString] throw.) *)
Theorem downloadVault_exports_record (w : World) :
  db w = true ->
  let w' := after UseVault.downloadVault w in
  let n := length (trace w) in
  let read := EvGet STORE_LOCKED "vault_data" in
  idb w' = idb w /\ state w' = state w /\ error w' = error w /\
  if request_ok (platform w) n then
    match locked_record w with
    | Some record =>
        if truthy record then
          exists text,
            JSON.stringify record = Some text /\
            match JsDate.toISOString_date (clock (platform w) (S n)) with
            | Some day =>
                outcome UseVault.downloadVault w = Return tt /\
                trace w'
                = EvDownload (lit "vault-backup-" ++ day ++ lit ".json") text
                    :: EvNow :: read :: trace w
            | None =>
                outcome UseVault.downloadVault w
                = Throw (Exception "RangeError" "") /\
                trace w' = EvNow :: read :: trace w
            end
        else outcome UseVault.downloadVault w = Return tt /\ trace w' = read :: trace w
    | None => outcome UseVault.downloadVault w = Return tt /\ trace w' = read :: trace w
    end
  else
    outcome UseVault.downloadVault w = Throw (Exception "AbortError" "IndexedDB") /\
    trace w' = read :: trace w.
Proof.
  intros Hdb. cbv zeta. unfold outcome, after. open_world w. subst dbh.
  unfold UseVault.downloadVault. run.
  destruct (request_ok pf _); run; [|auto 10].
  destruct (lm !! "vault_data") as [record|]; run; cbn [truthy]; run.
  - destruct (truthy record) eqn:Htruthy; run; [|auto 10].
    destruct (stringify_truthy record Htruthy) as [text ->]. cbn [length].
    destruct (JsDate.toISOString_date _); run; eauto 10.
  - auto 10.
Qed.

Lemma downloadVault_exports_record_witness :
  let w := Sample.locked_abc in
  let w' := after UseVault.downloadVault w in
  let line name value :=
    lit "  " ++ JSON.QuoteJSONString (lit name) ++ lit ": " ++ value in
  let text :=
    lit "{" ++ [10%N]
    ++ line "ciphertext"
         (JSON.QuoteJSONString
            (lit "YWJjMTIzNDU2Nzg5Ojs8PT4/QDg5Ojs8PT4/QEFCQ2RpYXJ5IGVudHJ5"))
    ++ lit "," ++ [10%N]
    ++ line "iv" (JSON.QuoteJSONString (lit "ODk6Ozw9Pj9AQUJD"))
    ++ lit "," ++ [10%N]
    ++ line "salt" (JSON.QuoteJSONString (lit "MTIzNDU2Nzg5Ojs8PT4/QA=="))
    ++ lit "," ++ [10%N]
    ++ line "lockedAt" (lit "1748736000011") ++ [10%N]
    ++ lit "}" in
  idb w' = idb w /\ state w' = state w /\ error w' = error w /\
  outcome UseVault.downloadVault w = Return tt /\
  trace w'
  = EvDownload (lit "vault-backup-2025-06-01.json") text
      :: EvNow :: EvGet STORE_LOCKED "vault_data" :: trace w.
Proof.
  pose proof (downloadVault_exports_record Sample.locked_abc) as H.
  cbv zeta in *.
  destruct H as (Hidb & Hstate & Herror & H); [vm_compute; reflexivity|].
  repeat (split; [assumption|]).
  assert (Hread : request_ok (platform Sample.locked_abc)
                    (length (trace Sample.locked_abc)) = true)
    by (vm_compute; reflexivity).
  assert (Hrecord : locked_record Sample.locked_abc = Some Sample.locked_abc_record)
    by (vm_compute; reflexivity).
  assert (Hday : JsDate.toISOString_date
                   (clock (platform Sample.locked_abc)
                      (S (length (trace Sample.locked_abc))))
                 = Some (lit "2025-06-01"))
    by (vm_compute; reflexivity).
  rewrite Hread, Hrecord in H. cbn [truthy Sample.locked_abc_record] in H.
  destruct H as (text & Htext & H). rewrite Hday in H.
  vm_compute in Htext. injection Htext as <-. exact H.
Defined.

(** X12.  [initDB] never throws: the handle is set when the database
    opens, and the error "Could not initialize storage." is set when it
    does not; state and database are untouched. *)
Theorem initDB_outcomes (w : World) :
  let w' := after UseVault.initDB w in
  outcome UseVault.initDB w = Return tt /\
  idb w' = idb w /\ state w' = state w /\
  ((db w' = true /\ error w' = error w) \/
   (db w' = db w /\ error w' = Some "Could not initialize storage."%string)).
Proof.
  cbv zeta. unfold outcome, after. open_world w.
  unfold UseVault.initDB. run.
  destruct (request_ok pf _); run; auto 10.
Qed.

(** ** Lock and unlock *)

Section LockAndUnlock.
Import UseVault.

(** X13.  A locked state with no encrypted record stored: [unlockVault]
    (the earlier revision with any password, the shipped one with the
    preset password) throws "Incorrect password or corrupted data."; the
    error "No locked vault found." never reaches the caller.  State and
    database stay as they were. *)
Theorem unlockVault_without_record (password : jsstring) (w : World) (t : Z) :
  db w = true -> state w = Locked t -> locked_record w = None ->
  (outcome (UseVaultPrev.unlockVault password) w
   = Throw (Error "Incorrect password or corrupted data.") /\
   state (after (UseVaultPrev.unlockVault password) w) = Locked t /\
   idb (after (UseVaultPrev.unlockVault password) w) = idb w) /\
  (outcome (unlockVault PRESET) w
   = Throw (Error "Incorrect password or corrupted data.") /\
   state (after (unlockVault PRESET) w) = Locked t /\
   idb (after (unlockVault PRESET) w) = idb w).
Proof.
  intros Hdb Hst Hnone.
  assert (H : forall kp,
    outcome (try_catch (decrypt_and_restore kp) (fun _ => decryption_failed)) w
    = Throw (Error "Incorrect password or corrupted data.") /\
    state (after (try_catch (decrypt_and_restore kp)
                    (fun _ => decryption_failed)) w) = Locked t /\
    idb (after (try_catch (decrypt_and_restore kp)
                  (fun _ => decryption_failed)) w) = idb w).
  { intros kp. pose proof (unlock_attempt_cases kp w) as Hcases.
    cbv zeta in Hcases.
    destruct Hcases as (_ & _ & _ & [(Hr & Hidb & Hst') | Hret]).
    - rewrite Hr, Hidb, Hst', Hst. auto.
    - destruct Hret as (? & ? & ? & ? & ? & ? & ? & ? & ? & _ & Hrec & _).
      unfold locked_record in Hnone. congruence. }
  unfold outcome, after in *.
  rewrite (unlockVault_prev _ _ _ Hdb Hst), (unlockVault_preset _ _ Hdb Hst).
  split; apply H.
Qed.

(** X14.  A [lockVault] that returned stored what it drew: the salt is
    the 16 bytes the random source gave at the call's first request,
    the iv the 12 bytes it gave at the second, the ciphertext is what
    AES-GCM returned for the UTF-8 bytes of the open text under the key
    PBKDF2 derived from the password and that salt, and [lockedAt] is
    the clock's reading, which the [Locked] state carries too. *)
Theorem lockVault_stores_what_it_drew
    (password : jsstring) (w : World) (c : jsstring) (t : Z) :
  db w = true -> state w = Open c t ->
  outcome (lockVault password) w = Return tt ->
  exists f1 f2 key ct,
    let n := length (trace w) in
    let salt := map f1 (seq 0 16) in
    let iv := map f2 (seq 0 12) in
    let lockedAt := clock (platform w) (n + 4) in
    entropy (platform w) n = Some f1 /\
    entropy (platform w) (n + 1) = Some f2 /\
    pbkdf2 (subtle (platform w)) password salt = Some key /\
    subtle_encrypt (subtle (platform w)) iv key (Encoding.TextEncoder_encode c)
    = Some ct /\
    locked_record (after (lockVault password) w)
    = Some (encrypted_record ct iv salt lockedAt) /\
    draft_record (after (lockVault password) w) = None /\
    state (after (lockVault password) w) = Locked lockedAt.
Proof.
  intros Hdb Hst. unfold outcome, after.
  rewrite (lockVault_open _ _ _ _ Hdb Hst). clear Hdb Hst.
  open_world w. unfold encrypt_and_store, pbkdf2. run.
  destruct (entropy pf (length tr)) as [f1|] eqn:Hf1; run; [|discriminate].
  replace (length tr + 1)%nat with (S (length tr)) by lia.
  replace (length tr + 4)%nat with (S (S (S (S (length tr))))) by lia.
  cbn [length].
  destruct (entropy pf (S (length tr))) as [f2|] eqn:Hf2; run; [|discriminate].
  destruct (subtle_deriveKey _ _ _ _ _ _) as [key|] eqn:Hkey; run; [|discriminate].
  destruct (subtle_encrypt _ _ _ _) as [ct|] eqn:Hct; run; [|discriminate].
  rewrite !bufferToBase64_returns. run.
  do 4 (destruct (request_ok pf _); run; [|discriminate]).
  intros _. exists f1, f2, key, ct. cbn [length].
  repeat (split; [first [reflexivity|assumption]|]).
  split; [apply lookup_insert_eq|]. split; [apply lookup_delete_eq|reflexivity].
Qed.
End LockAndUnlock.

Lemma lockVault_stores_what_it_drew_witness :
  exists f1 f2 key ct,
    let w := Sample.writing in
    let n := length (trace w) in
    let salt := map f1 (seq 0 16) in
    let iv := map f2 (seq 0 12) in
    let lockedAt := clock (platform w) (n + 4) in
    entropy (platform w) n = Some f1 /\
    entropy (platform w) (n + 1) = Some f2 /\
    pbkdf2 (subtle (platform w)) (lit "abc") salt = Some key /\
    subtle_encrypt (subtle (platform w)) iv key
      (Encoding.TextEncoder_encode (lit "diary entry")) = Some ct /\
    locked_record (after (UseVault.lockVault (lit "abc")) w)
    = Some (encrypted_record ct iv salt lockedAt) /\
    draft_record (after (UseVault.lockVault (lit "abc")) w) = None /\
    state (after (UseVault.lockVault (lit "abc")) w) = Locked lockedAt.
Proof.
  apply (lockVault_stores_what_it_drew (lit "abc") Sample.writing
           (lit "diary entry") 1748736000005);
    vm_compute; reflexivity.
Defined.

Lemma unlockVault_without_record_witness :
  let w := Sample.on (Sample.sample_platform Sample.in_2026)
             {| platform := Sample.sample_platform Sample.in_2026; trace := [];
                idb := Sample.empty_idb; pending := None; db := true;
                state := Locked 5; error := None |} in
  (outcome (UseVaultPrev.unlockVault (lit "abc")) w
   = Throw (Error "Incorrect password or corrupted data.") /\
   state (after (UseVaultPrev.unlockVault (lit "abc")) w) = Locked 5 /\
   idb (after (UseVaultPrev.unlockVault (lit "abc")) w) = idb w) /\
  (outcome (UseVault.unlockVault UseVault.PRESET) w
   = Throw (Error "Incorrect password or corrupted data.") /\
   state (after (UseVault.unlockVault UseVault.PRESET) w) = Locked 5 /\
   idb (after (UseVault.unlockVault UseVault.PRESET) w) = idb w).
Proof.
  apply (unlockVault_without_record (lit "abc")
           (Sample.on (Sample.sample_platform Sample.in_2026)
             {| platform := Sample.sample_platform Sample.in_2026; trace := [];
                idb := Sample.empty_idb; pending := None; db := true;
                state := Locked 5; error := None |}) 5);
    reflexivity.
Defined.

Section LockThenUnlock.
Import UseVault.

(** X15.  In the earlier revision, on a platform that does not fail:
    lock an open vault with any passphrase, unlock it with the same
    one, and the vault is open again with the text [TextDecoder] reads
    back from the UTF-8 bytes of the text locked (that text itself when
    it is well formed and does not start with U+FEFF); the draft record
    is back and the encrypted one gone.  The timestamps are readings of
    the clock made during the unlock, not the lock's.  The shipped
    revision does the same when the passphrase is the preset one. *)
Theorem lock_then_unlock_restores
    (password : jsstring) (w : World) (c : jsstring) (t : Z) :
  db w = true -> state w = Open c t ->
  reliable (platform w) -> well_behaved (subtle (platform w)) ->
  let w1 := after (lockVault password) w in
  let w2 := after (UseVaultPrev.unlockVault password) w1 in
  let c' := Encoding.TextDecoder_decode (Encoding.TextEncoder_encode c) in
  let n := length (trace w1) in
  outcome (lockVault password) w = Return tt /\
  outcome (UseVaultPrev.unlockVault password) w1 = Return tt /\
  state w2 = Open c' (clock (platform w) (n + 8)) /\
  draft_record w2 = Some (draft_value c' (clock (platform w) (n + 4))) /\
  locked_record w2 = None /\
  (Encoding.utf8_stable c = true -> c' = c) /\
  (password = PRESET ->
   unlockVault password w1 = UseVaultPrev.unlockVault password w1).
Proof.
  intros Hdb Hst Hrel Hwb. cbv zeta.
  destruct (lockVault_locks password w c t Hdb Hst Hrel Hwb)
    as (ct & iv & salt & key & t1 & tr1 & pd1 & Hlock & Hkey & Hct).
  unfold outcome, after. rewrite Hlock. cbn [fst snd].
  destruct (encrypted_record_parses ct iv salt t1)
    as (v & Hv & Hlocked & Hsalt & Hiv & Hctx).
  set (W := {| platform := platform w; trace := tr1;
               idb := idb_locked (idb w) (encrypted_record ct iv salt t1);
               pending := pd1; db := true; state := Locked t1;
               error := error w |}).
  assert (Hrec : locked (idb W) !! "vault_data" = Some (encrypted_record ct iv salt t1))
    by apply lookup_insert_eq.
  pose proof (decrypt_and_restore_timed password W _ v salt iv ct key _
                Hrel Hrec Hv Hsalt Hiv Hctx Hkey
                (decrypt_encrypt _ Hwb _ _ _ _ Hct)) as Hrun.
  cbv zeta in Hrun. unfold outcome, after in Hrun.
  destruct Hrun as (Hout & Hstate & Hidb).
  rewrite (unlockVault_prev password W t1 eq_refl eq_refl), unlock_caught.
  destruct (decrypt_and_restore password W) as [r2 w2] eqn:E.
  cbn [fst snd] in *. subst r2. cbn [fst snd].
  split; [reflexivity|]. split; [reflexivity|]. split; [exact Hstate|].
  unfold draft_record, locked_record. rewrite Hidb.
  cbn [idb_unlocked draft locked].
  rewrite lookup_insert_eq, lookup_delete_eq.
  split; [reflexivity|]. split; [reflexivity|].
  split; [apply decode_encode_stable|].
  intros ->. now rewrite (unlockVault_preset W t1 eq_refl eq_refl), unlock_caught, E.
Qed.

(** X16.  In the earlier revision, on a platform that does not fail and
    whose ciphertexts made under the passphrase [p] do not authenticate
    under the key of [q]: after locking with [p], unlocking with [q]
    throws "Incorrect password or corrupted data.", the vault stays
    locked with the same records, and unlocking with [p] afterwards
    still opens it with the text locked. *)
Theorem wrong_passphrase_then_right_one
    (p q : jsstring) (w : World) (c : jsstring) (t : Z) :
  db w = true -> state w = Open c t ->
  reliable (platform w) -> well_behaved (subtle (platform w)) ->
  rejects (subtle (platform w)) p q ->
  let w1 := after (lockVault p) w in
  let w2 := after (UseVaultPrev.unlockVault q) w1 in
  let w3 := after (UseVaultPrev.unlockVault p) w2 in
  let c' := Encoding.TextDecoder_decode (Encoding.TextEncoder_encode c) in
  outcome (UseVaultPrev.unlockVault q) w1
  = Throw (Error "Incorrect password or corrupted data.") /\
  state w2 = state w1 /\ idb w2 = idb w1 /\
  outcome (UseVaultPrev.unlockVault p) w2 = Return tt /\
  (exists t2, state w3 = Open c' t2) /\
  locked_record w3 = None /\
  (Encoding.utf8_stable c = true -> c' = c).
Proof.
  intros Hdb Hst Hrel Hwb Hrej. cbv zeta.
  destruct (lockVault_locks p w c t Hdb Hst Hrel Hwb)
    as (ct & iv & salt & key & t1 & tr1 & pd1 & Hlock & Hkey & Hct).
  unfold outcome, after. rewrite Hlock. cbn [fst snd].
  destruct (encrypted_record_parses ct iv salt t1)
    as (v & Hv & Hlocked & Hsalt & Hiv & Hctx).
  set (W := {| platform := platform w; trace := tr1;
               idb := idb_locked (idb w) (encrypted_record ct iv salt t1);
               pending := pd1; db := true; state := Locked t1;
               error := error w |}).
  assert (Hrec : locked (idb W) !! "vault_data" = Some (encrypted_record ct iv salt t1))
    by apply lookup_insert_eq.
  rewrite (unlockVault_prev q W t1 eq_refl eq_refl).
  pose proof (unlock_attempt_cases q W) as Hcases.
  cbv zeta in Hcases. unfold outcome, after in Hcases.
  destruct Hcases as (Hpf2 & Hdb2 & _ & [(Hr & Hidb2 & Hst2) | Hret]).
  2:{ exfalso.
      destruct Hret as (record & v' & salt' & iv' & ct' & key' & data & _ & _ & _
                        & Hrec' & Hv' & Hsalt' & Hiv' & Hct' & Hkey' & Hdata & _).
      rewrite Hrec in Hrec'. injection Hrec' as <-.
      rewrite Hv in Hv'. injection Hv' as <-.
      rewrite Hsalt in Hsalt'. rewrite Hiv in Hiv'. rewrite Hctx in Hct'.
      injection Hsalt' as <-. injection Hiv' as <-. injection Hct' as <-.
      cbn [platform W] in *.
      now rewrite (Hrej _ _ _ _ _ _ Hkey Hkey' Hct) in Hdata. }
  destruct (try_catch (decrypt_and_restore q) (fun _ => decryption_failed) W)
    as [r2 w2] eqn:E2.
  cbn [fst snd] in *. subst r2.
  split; [reflexivity|]. split; [exact Hst2|]. split; [exact Hidb2|].
  assert (Hrel2 : reliable (platform w2)) by now rewrite Hpf2.
  assert (Hrec2 : locked (idb w2) !! "vault_data" = Some (encrypted_record ct iv salt t1))
    by now rewrite Hidb2.
  assert (Hkey2 : pbkdf2 (subtle (platform w2)) p salt = Some key) by now rewrite Hpf2.
  assert (Hdata2 : subtle_decrypt (subtle (platform w2)) iv key ct
                   = Some (Encoding.TextEncoder_encode c))
    by (rewrite Hpf2; exact (decrypt_encrypt _ Hwb _ _ _ _ Hct)).
  pose proof (decrypt_and_restore_timed p w2 _ v salt iv ct key _
                Hrel2 Hrec2 Hv Hsalt Hiv Hctx Hkey2 Hdata2) as Hrun.
  cbv zeta in Hrun. unfold outcome, after in Hrun.
  destruct Hrun as (Hout & Hstate & Hidb).
  rewrite (unlockVault_prev p w2 t1 Hdb2 Hst2), unlock_caught.
  destruct (decrypt_and_restore p w2) as [r3 w3] eqn:E3.
  cbn [fst snd] in *. subst r3. cbn [fst snd].
  split; [reflexivity|]. split; [eauto|].
  unfold locked_record. rewrite Hidb. cbn [idb_unlocked locked].
  rewrite lookup_delete_eq. split; [reflexivity|]. apply decode_encode_stable.
Qed.
End LockThenUnlock.

Lemma lock_then_unlock_restores_witness :
  let password := lit "abc" in
  let w := Sample.on (Sample.sample_platform Sample.in_2025) Sample.writing in
  let c := lit "diary entry" in
  let w1 := after (UseVault.lockVault password) w in
  let w2 := after (UseVaultPrev.unlockVault password) w1 in
  let c' := Encoding.TextDecoder_decode (Encoding.TextEncoder_encode c) in
  let n := length (trace w1) in
  outcome (UseVault.lockVault password) w = Return tt /\
  outcome (UseVaultPrev.unlockVault password) w1 = Return tt /\
  state w2 = Open c' (clock (platform w) (n + 8)) /\
  draft_record w2 = Some (draft_value c' (clock (platform w) (n + 4))) /\
  locked_record w2 = None /\
  (Encoding.utf8_stable c = true -> c' = c) /\
  (password = UseVault.PRESET ->
   UseVault.unlockVault password w1 = UseVaultPrev.unlockVault password w1).
Proof.
  apply (lock_then_unlock_restores (lit "abc")
           (Sample.on (Sample.sample_platform Sample.in_2025) Sample.writing)
           (lit "diary entry") 1748736000005).
  - vm_compute. reflexivity.
  - vm_compute. reflexivity.
  - apply sample_reliable.
  - apply sample_well_behaved.
Defined.

Lemma wrong_passphrase_then_right_one_witness :
  let p := lit "abc" in
  let q := lit "wrong" in
  let w := Sample.on (Sample.sample_platform Sample.in_2025) Sample.writing in
  let c := lit "diary entry" in
  let w1 := after (UseVault.lockVault p) w in
  let w2 := after (UseVaultPrev.unlockVault q) w1 in
  let w3 := after (UseVaultPrev.unlockVault p) w2 in
  let c' := Encoding.TextDecoder_decode (Encoding.TextEncoder_encode c) in
  outcome (UseVaultPrev.unlockVault q) w1
  = Throw (Error "Incorrect password or corrupted data.") /\
  state w2 = state w1 /\ idb w2 = idb w1 /\
  outcome (UseVaultPrev.unlockVault p) w2 = Return tt /\
  (exists t2, state w3 = Open c' t2) /\
  locked_record w3 = None /\
  (Encoding.utf8_stable c = true -> c' = c).
Proof.
  apply (wrong_passphrase_then_right_one (lit "abc") (lit "wrong")
           (Sample.on (Sample.sample_platform Sample.in_2025) Sample.writing)
           (lit "diary entry") 1748736000005).
  - vm_compute. reflexivity.
  - vm_compute. reflexivity.
  - apply sample_reliable.
  - apply sample_well_behaved.
  - apply sample_rejects_abc_wrong.
Defined.

(** ** The route helper *)

Section RouteHelper.
Import Routes.

Lemma starts_with_prefix (pat s : jsstring) :
  starts_with pat (pat ++ s) = true.
Proof.
  induction pat as [|p pat IH]; [reflexivity|].
  cbn [starts_with app]. now rewrite N.eqb_refl, IH.
Qed.

Lemma starts_with_split (pat s : jsstring) :
  starts_with pat s = true -> s = pat ++ drop (length pat) s.
Proof.
  revert s. induction pat as [|p pat IH]; intros s; [reflexivity|].
  destruct s as [|u s]; [discriminate|].
  cbn [starts_with]. intros [E H]%andb_true_iff.
  apply N.eqb_eq in E. subst u. cbn [app length drop]. f_equal. now apply IH.
Qed.

(** [String_indexOf] returns a position at which the pattern stands. *)
Lemma String_indexOf_Some (s pat : jsstring) (n : nat) :
  String_indexOf s pat = Some n ->
  s = take n s ++ pat ++ drop (n + length pat) s.
Proof.
  revert n. induction s as [|u s IH]; intros n; cbn [String_indexOf].
  - destruct (starts_with pat []) eqn:E; [|discriminate].
    intros [= <-]. now apply starts_with_split in E.
  - destruct (starts_with pat (u :: s)) eqn:E.
    + intros [= <-]. now apply starts_with_split in E.
    + destruct (String_indexOf s pat) as [m|] eqn:F; [|discriminate].
      cbn [fmap option_fmap option_map]. intros [= <-].
      cbn [take drop app Nat.add]. f_equal. now apply IH.
Qed.

(** A pattern is first found after a text that lacks its first unit. *)
Lemma String_indexOf_first (c : N) (pat pre post : jsstring) :
  ~ In c pre ->
  String_indexOf (pre ++ (c :: pat) ++ post) (c :: pat) = Some (length pre).
Proof.
  pose proof (starts_with_prefix (c :: pat) post) as Hs.
  remember ((c :: pat) ++ post) as rest eqn:Er.
  remember (c :: pat) as pattern eqn:Ep.
  induction pre as [|u pre IH]; intros H.
  - cbn [app length]. destruct rest; cbn [String_indexOf]; now rewrite Hs.
  - cbn [app String_indexOf length].
    assert (starts_with pattern (u :: pre ++ rest) = false) as ->.
    { subst pattern. cbn [starts_with].
      destruct (N.eqb_spec c u) as [->|]; [|reflexivity].
      exfalso. apply H. now left. }
    rewrite IH; [reflexivity|]. intros Hin. apply H. now right.
Qed.

Lemma GetSubstitution_plain (matched preceding following template : jsstring) :
  ~ In 36%N template ->
  GetSubstitution matched preceding following template = template.
Proof.
  induction template as [|u rest IH]; intros H; [reflexivity|].
  cbn [GetSubstitution].
  destruct (N.eqb_spec u 36) as [->|_].
  - exfalso. apply H. now left.
  - f_equal. apply IH. intros Hin. apply H. now right.
Qed.

Lemma string_of_uint_plain (d : Decimal.uint) :
  ~ In 36%N (lit (DecimalString.NilEmpty.string_of_uint d)).
Proof.
  induction d; cbn [DecimalString.NilEmpty.string_of_uint lit In];
    [tauto | intros [E|Hin]; [discriminate E | tauto] ..].
Qed.

Lemma Number_toString_plain (n : SafeInteger) : ~ In 36%N (Number_toString n).
Proof.
  unfold Number_toString, DecimalString.NilZero.string_of_int.
  destruct (Z.to_int (integer n)) as [d|d];
    unfold DecimalString.NilZero.string_of_uint;
    destruct d; cbn [lit In DecimalString.NilEmpty.string_of_uint];
    try (intros [E|Hin]; [discriminate E|]);
    try (destruct Hin as [E|Hin]; [discriminate E|]);
    try tauto;
    try (now apply (string_of_uint_plain _ Hin)).
Qed.

Lemma Object_entries_single (key : jsstring) (value : Param) :
  Object_entries [(key, value)] = [(key, value)].
Proof.
  unfold Object_entries, indexed, named.
  cbn [omap list_omap filter list_filter fst].
  destruct (array_index key) as [i|] eqn:E.
  - rewrite decide_False by discriminate. reflexivity.
  - rewrite decide_True by reflexivity. reflexivity.
Qed.

Lemma insert_by_index_In (e e' : N * (jsstring * Param))
    (l : list (N * (jsstring * Param))) :
  In e' (insert_by_index e l) -> e' = e \/ In e' l.
Proof.
  induction l as [|x l IH]; cbn [insert_by_index In].
  - intros [<-|[]]. now left.
  - destruct (fst e <=? fst x)%N; cbn [In].
    + intros [<-|[<-|H]]; auto.
    + intros [<-|H]; auto. destruct (IH H); auto.
Qed.

Lemma Object_entries_In (o : Params) (e : jsstring * Param) :
  In e (Object_entries o) -> In e o.
Proof.
  unfold Object_entries. rewrite in_app_iff. intros [H|H].
  - apply List.in_map_iff in H as [[i e'] [<- H]]. cbn [snd].
    assert (forall l, (forall x, In x l -> In (snd x) o) ->
              forall x, In x (fold_right insert_by_index [] l) -> In (snd x) o)
      as sorted.
    { induction l as [|y l IH]; intros Hl x; cbn [fold_right].
      - intros [].
      - intros [->|Hx]%insert_by_index_In.
        + apply Hl. now left.
        + apply IH; [|exact Hx]. intros x' Hx'. apply Hl. now right. }
    refine (sorted (indexed o) _ (i, e') H).
    intros [j x] Hx. cbn [snd]. unfold indexed in Hx.
    apply list_elem_of_In, list_elem_of_omap in Hx as [y [Hy Ey]].
    destruct (array_index (fst y)); [|discriminate].
    injection Ey as _ <-. now apply list_elem_of_In.
  - unfold named in H. apply list_elem_of_In, list_elem_of_filter in H as [_ H].
    now apply list_elem_of_In.
Qed.

Lemma buildUrl_step (pre post key : jsstring) (value : Param) :
  ~ In 58%N pre ->
  (forall s, value = PString s -> ~ In 36%N s) ->
  fill (pre ++ placeholder key ++ post) (key, value)
  = pre ++ String_of value ++ post.
Proof.
  intros Hpre Hvalue.
  cbn [fill]. unfold String_includes, String_replace, placeholder.
  rewrite (String_indexOf_first 58%N key pre post Hpre).
  rewrite take_app_length, <- drop_drop, drop_app_length, drop_app_length.
  rewrite GetSubstitution_plain; [reflexivity|].
  destruct value as [s|n]; cbn [String_of].
  - now apply Hvalue.
  - apply Number_toString_plain.
Qed.

(** X17.  The first placeholder of a key is replaced by the value, be it
    a number (a safe integer) or a string without a dollar sign: when
    the text before the placeholder has no colon, the result is that
    text, the value as a string, and whatever followed the key,
    unchanged (further occurrences of the placeholder and the rest of a
    longer name included). *)
Theorem buildUrl_fills_first_placeholder
    (pre post key : jsstring) (value : Param) :
  ~ In 58%N pre ->
  (forall s, value = PString s -> ~ In 36%N s) ->
  buildUrl (pre ++ placeholder key ++ post) (Some [(key, value)])
  = pre ++ String_of value ++ post.
Proof.
  intros Hpre Hvalue. unfold buildUrl. rewrite Object_entries_single.
  cbn [fold_left]. now apply buildUrl_step.
Qed.

(** X18.  Parameters whose placeholder does not occur in the path leave
    it as it is, whatever their values. *)
Theorem buildUrl_without_placeholder (path : jsstring) (o : Params) :
  (forall key value,
      In (key, value) o -> String_includes path (placeholder key) = false) ->
  buildUrl path (Some o) = path.
Proof.
  intros H. unfold buildUrl.
  assert (forall e, In e (Object_entries o) -> In e o) as Hin
    by apply Object_entries_In.
  induction (Object_entries o) as [|[key value] l IH]; [reflexivity|].
  cbn [fold_left fill].
  rewrite (H key value) by (apply Hin; now left).
  apply IH. intros e He. apply Hin. now right.
Qed.

(** X19.  The value is read as a replacement template: the value [$&]
    stands for the placeholder itself, so the path comes back unchanged,
    with or without the placeholder in it. *)
Theorem buildUrl_value_is_a_template (path key : jsstring) :
  buildUrl path (Some [(key, PString (lit "$&"))]) = path.
Proof.
  unfold buildUrl. rewrite Object_entries_single. cbn [fold_left fill].
  unfold String_includes, String_replace.
  destruct (String_indexOf path (placeholder key)) as [n|] eqn:E;
    [|reflexivity].
  cbn [String_of lit GetSubstitution N_of_ascii N.eqb Pos.eqb].
  cbn. rewrite app_nil_r. symmetry. now apply String_indexOf_Some.
Qed.

(** X20.  Two placeholders are filled one after the other: with two
    different keys that are not array indices (they are visited in
    creation order), no colon before the second placeholder other than
    the first one's, and a first value (a safe integer, or a string
    without a dollar sign) without a colon, the path comes out with
    both values in place. *)
Theorem buildUrl_fills_two_placeholders
    (a b c key1 key2 : jsstring) (value1 value2 : Param) :
  key1 <> key2 ->
  array_index key1 = None -> array_index key2 = None ->
  ~ In 58%N a -> ~ In 58%N b -> ~ In 58%N (String_of value1) ->
  (forall s, value1 = PString s -> ~ In 36%N s) ->
  (forall s, value2 = PString s -> ~ In 36%N s) ->
  buildUrl (a ++ placeholder key1 ++ b ++ placeholder key2 ++ c)
           (Some [(key1, value1); (key2, value2)])
  = a ++ String_of value1 ++ b ++ String_of value2 ++ c.
Proof.
  intros _ N1 N2 Ha Hb Hv H1 H2.
  assert (Object_entries [(key1, value1); (key2, value2)]
          = [(key1, value1); (key2, value2)]) as E.
  { unfold Object_entries, indexed, named.
    cbn [omap list_omap filter list_filter fst]. rewrite N1, N2.
    rewrite !decide_True by reflexivity. reflexivity. }
  unfold buildUrl. rewrite E. cbn [fold_left].
  pose proof (buildUrl_step a (b ++ placeholder key2 ++ c) key1 value1 Ha H1)
    as S1.
  rewrite S1.
  replace (a ++ String_of value1 ++ b ++ placeholder key2 ++ c)
    with ((a ++ String_of value1 ++ b) ++ placeholder key2 ++ c)
    by now rewrite <- !app_assoc.
  rewrite buildUrl_step; [now rewrite <- !app_assoc| |exact H2].
  rewrite !in_app_iff. tauto.
Qed.
End RouteHelper.

Lemma buildUrl_fills_first_placeholder_witness :
  Routes.buildUrl (lit "/api/items/:id/tags/:id")
                  (Some [(lit "id", Routes.PNumber forty_two)])
  = lit "/api/items/42/tags/:id".
Proof.
  apply (buildUrl_fills_first_placeholder
           (lit "/api/items/") (lit "/tags/:id") (lit "id") (Routes.PNumber forty_two)).
  - vm_compute. intuition discriminate.
  - intros s [=].
Defined.

Lemma buildUrl_without_placeholder_witness :
  Routes.buildUrl (lit "/api/status")
                  (Some [(lit "id", Routes.PNumber seven);
                         (lit "tag", Routes.PString (lit "$&"))])
  = lit "/api/status".
Proof.
  apply (buildUrl_without_placeholder (lit "/api/status")
           [(lit "id", Routes.PNumber seven);
            (lit "tag", Routes.PString (lit "$&"))]).
  intros key value [[= <- <-]|[[= <- <-]|[]]]; vm_compute; reflexivity.
Defined.

Lemma buildUrl_fills_two_placeholders_witness :
  Routes.buildUrl (lit "/api/users/:userId/posts/:postId/edit")
                  (Some [(lit "userId", Routes.PNumber twelve);
                         (lit "postId", Routes.PString (lit "first-post"))])
  = lit "/api/users/12/posts/first-post/edit".
Proof.
  apply (buildUrl_fills_two_placeholders
           (lit "/api/users/") (lit "/posts/") (lit "/edit")
           (lit "userId") (lit "postId")
           (Routes.PNumber twelve) (Routes.PString (lit "first-post"))).
  - discriminate.
  - vm_compute. reflexivity.
  - vm_compute. reflexivity.
  - vm_compute. intuition discriminate.
  - vm_compute. intuition discriminate.
  - vm_compute. intuition discriminate.
  - intros s [=].
  - intros s [= <-]. vm_compute. intuition discriminate.
Defined.

(** ** The unlock dialog *)

Section UnlockDialog.
Import UseVault.

(** X21.  Submitting the unlock dialog on a locked vault never throws
    and always ends with the loading flag down.  Then either the vault
    is open, the dialog is closed with its password field and error
    line cleared, and the password typed was the preset one; or state
    and database are as before, the dialog is as it was but for the
    error line, which reads "Incorrect password. Please try again."
    whether the password was refused, the record did not decrypt or the
    database failed. *)
Theorem handleSubmit_outcomes (ui : Home.Ui) (w : World) (t : Z) :
  db w = true -> state w = Locked t ->
  let w' := after (Home.handleSubmit unlockVault ui) w in
  exists ui',
    outcome (Home.handleSubmit unlockVault ui) w = Return ui' /\
    Home.loading ui' = false /\
    ((Home.password ui = PRESET /\
      (exists c t2, state w' = Open c t2) /\
      Home.isUnlockModalOpen ui' = false /\
      Home.password ui' = [] /\ Home.error ui' = "") \/
     (state w' = state w /\ idb w' = idb w /\
      Home.isUnlockModalOpen ui' = Home.isUnlockModalOpen ui /\
      Home.password ui' = Home.password ui /\
      Home.error ui' = "Incorrect password. Please try again.")).
Proof.
  intros Hdb Hst w'. subst w'.
  unfold outcome, after, Home.handleSubmit. cbv [bind try_catch].
  destruct (decide (Home.password ui = PRESET)) as [E | Hne].
  - rewrite E, (unlockVault_preset w t Hdb Hst).
    pose proof (unlock_attempt_cases PRESET w) as Hcases.
    cbv zeta in Hcases. unfold outcome, after in Hcases.
    destruct (try_catch (decrypt_and_restore PRESET)
                (fun _ => decryption_failed) w) as [[[]|e] w1].
    + destruct Hcases as (_ & _ & _ & [(Hr & _) | Hret]); [discriminate|].
      destruct Hret as (? & ? & ? & ? & ? & ? & data & ? & t2 & _ & _ & _ & _
                        & _ & _ & _ & _ & _ & Hstate).
      cbn [fst snd] in *. eexists. split; [reflexivity|].
      split; [reflexivity|]. left. repeat split; eauto.
    + destruct Hcases as (_ & _ & _ & [(_ & Hidb & Hstate) | Hret]).
      * cbn [fst snd] in *. eexists. split; [reflexivity|].
        split; [reflexivity|]. right. repeat split; auto.
      * destruct Hret as (? & ? & ? & ? & ? & ? & ? & ? & ? & Hr & _).
        discriminate.
  - rewrite (unlockVault_refuses _ w t Hdb Hst Hne). cbn [fst snd ret].
    eexists. split; [reflexivity|]. split; [reflexivity|]. right.
    repeat split; reflexivity.
Qed.
End UnlockDialog.

Lemma handleSubmit_outcomes_witness :
  let ui := {| Home.isUnlockModalOpen := true; Home.password := lit "abc";
               Home.loading := false; Home.error := "" |} in
  let w := Sample.on (Sample.sample_platform Sample.in_2026) Sample.auto_locked in
  let w' := after (Home.handleSubmit UseVault.unlockVault ui) w in
  exists ui',
    outcome (Home.handleSubmit UseVault.unlockVault ui) w = Return ui' /\
    Home.loading ui' = false /\
    ((Home.password ui = UseVault.PRESET /\
      (exists c t2, state w' = Open c t2) /\
      Home.isUnlockModalOpen ui' = false /\
      Home.password ui' = [] /\ Home.error ui' = "") \/
     (state w' = state w /\ idb w' = idb w /\
      Home.isUnlockModalOpen ui' = Home.isUnlockModalOpen ui /\
      Home.password ui' = Home.password ui /\
      Home.error ui' = "Incorrect password. Please try again.")).
Proof.
  apply (handleSubmit_outcomes
           {| Home.isUnlockModalOpen := true; Home.password := lit "abc";
              Home.loading := false; Home.error := "" |}
           (Sample.on (Sample.sample_platform Sample.in_2026) Sample.auto_locked)
           1772323200009).
  - vm_compute. reflexivity.
  - vm_compute. reflexivity.
Defined.
